(** * Topology generation for Cooja simulations

    A shallow embedding of [scripts/generate-topology.py]: the placement of
    motes by rejection sampling, the sweep over the success ratios of the
    radio medium and the naming of the saved simulation files.

    Python's [float] is IEEE 754 binary64 and is modelled by Rocq's primitive
    floats; Python's [int] is [Z].  The model starts from the parsed
    arguments and the loaded simulation: the parsing of the command line, the
    creation of the output directory, the reading of the simulation file and
    what the script prints are left out. *)

From Stdlib Require Import ZArith List Bool Ascii String Lia DecimalN.
From Stdlib Require Import Floats.
Import ListNotations.

Local Open Scope list_scope.
Local Open Scope Z_scope.

(** ** Outcomes of Python code *)

(** The exceptions the script can end with.  [sys.exit(msg)] raises
    [SystemExit]. *)
Inductive exn : Type :=
| SystemExit (msg : string)
| OverflowError
| ValueError.

(** A computation returns, raises, or (for the [while] loop of the placement,
    which has no bound) is still running when the fuel of the model is
    spent. *)
Inductive Res (A : Type) : Type :=
| Ok (a : A)
| Raise (e : exn)
| OutOfFuel.

Arguments Ok {A} a.
Arguments Raise {A} e.
Arguments OutOfFuel {A}.

Definition bind {A B : Type} (r : Res A) (k : A -> Res B) : Res B :=
  match r with
  | Ok a => k a
  | Raise e => Raise e
  | OutOfFuel => OutOfFuel
  end.

Notation "x <- r ;; k" := (bind r (fun x => k))
  (at level 61, r at next level, right associativity).

(** ** Python numbers *)

Module PyFloat.

(** [math.isnan], [math.isinf] and [math.isfinite], read off the IEEE
    class of the number. *)
Definition isnan (f : float) : bool :=
  match Prim2SF f with S754_nan => true | _ => false end.

Definition isinf (f : float) : bool :=
  match Prim2SF f with S754_infinity _ => true | _ => false end.

Definition isfinite (f : float) : bool :=
  match Prim2SF f with S754_zero _ | S754_finite _ _ _ => true | _ => false end.

(** Comparison of a float with an int.  Python compares the two exactly
    (the int is not rounded to a float first); a NaN compares with
    nothing. *)
Definition cmp_int (f : float) (z : Z) : option comparison :=
  match Prim2SF f with
  | S754_nan => None
  | S754_infinity s => Some (if s then Lt else Gt)
  | S754_zero _ => Some (0 ?= z)
  | S754_finite s m e =>
      let v := if s then Zneg m else Zpos m in
      Some (if 0 <=? e then (v * 2 ^ e ?= z) else (v ?= z * 2 ^ (- e)))
  end.

(** [f < z] *)
Definition lt_int (f : float) (z : Z) : bool :=
  match cmp_int f z with Some Lt => true | _ => false end.

(** [z >= f] *)
Definition int_ge (z : Z) (f : float) : bool :=
  match cmp_int f z with Some Lt | Some Eq => true | _ => false end.


(** [z < f] *)
Definition int_lt (z : Z) (f : float) : bool :=
  match cmp_int f z with Some Gt => true | _ => false end.

(** [float(n)] for the length of a list. *)
Definition of_nat (n : nat) : float := of_uint63 (Uint63.of_Z (Z.of_nat n)).

(** [v ** 2].  [float.__pow__] returns NaN and infinity for NaN and
    infinite [v], and raises [OverflowError] when the square of a finite
    [v] is out of range.  The square itself is the correctly rounded
    product. *)
Definition pow2 (v : float) : Res float :=
  let r := (v * v)%float in
  if isinf r && negb (isinf v) then Raise OverflowError else Ok r.

(** [math.sqrt(s)]: a NaN result for an argument that is not a NaN is a
    math domain error. *)
Definition math_sqrt (s : float) : Res float :=
  let r := sqrt s in
  if isnan r && negb (isnan s) then Raise ValueError else Ok r.

(** The built-in [min] and [max] keep the first element unless a later one
    compares strictly below (above) the current choice. *)
Fixpoint min_from (cur : float) (l : list float) : float :=
  match l with
  | [] => cur
  | v :: l' => min_from (if (v <? cur)%float then v else cur) l'
  end.

Fixpoint max_from (cur : float) (l : list float) : float :=
  match l with
  | [] => cur
  | v :: l' => max_from (if (cur <? v)%float then v else cur) l'
  end.

Definition min (l : list float) : Res float :=
  match l with
  | [] => Raise ValueError
  | v :: l' => Ok (min_from v l')
  end.

Definition max (l : list float) : Res float :=
  match l with
  | [] => Raise ValueError
  | v :: l' => Ok (max_from v l')
  end.

End PyFloat.

(** ** Python strings and formatting *)

Definition text : Type := list ascii.

Definition lit (s : string) : text := list_ascii_of_string s.

Module PyFormat.

Fixpoint digits_of_uint (d : Decimal.uint) : text :=
  match d with
  | Decimal.Nil => []
  | Decimal.D0 d' => "0"%char :: digits_of_uint d'
  | Decimal.D1 d' => "1"%char :: digits_of_uint d'
  | Decimal.D2 d' => "2"%char :: digits_of_uint d'
  | Decimal.D3 d' => "3"%char :: digits_of_uint d'
  | Decimal.D4 d' => "4"%char :: digits_of_uint d'
  | Decimal.D5 d' => "5"%char :: digits_of_uint d'
  | Decimal.D6 d' => "6"%char :: digits_of_uint d'
  | Decimal.D7 d' => "7"%char :: digits_of_uint d'
  | Decimal.D8 d' => "8"%char :: digits_of_uint d'
  | Decimal.D9 d' => "9"%char :: digits_of_uint d'
  end.

(** [str(n)] for [n >= 0]. *)
Definition decimal (n : Z) : text := digits_of_uint (N.to_uint (Z.to_N n)).

(** [s.zfill(w)] for a string of digits. *)
Definition zfill (w : nat) (s : text) : text :=
  repeat "0"%char (w - List.length s) ++ s.

(** [f'{n:05}']: the sign, then the digits filled with zeros to a total
    width of five. *)
Definition format_05 (n : Z) : text :=
  if n <? 0 then "-"%char :: zfill 4 (decimal (- n)) else zfill 5 (decimal n).

(** [a / b] rounded to the nearest integer, ties to the even one, for
    [0 <= a] and [0 < b]. *)
Definition div_half_even (a b : Z) : Z :=
  let q := a / b in
  match 2 * (a mod b) ?= b with
  | Lt => q
  | Gt => q + 1
  | Eq => if Z.even q then q else q + 1
  end.

(** The magnitude [m * 2^e], times 100, rounded to an integer: the digits
    that a correctly rounded conversion to two decimals keeps. *)
Definition hundredths (m : positive) (e : Z) : Z :=
  if 0 <=? e then 100 * Zpos m * 2 ^ e
  else div_half_even (100 * Zpos m) (2 ^ (- e)).

Definition sign (s : bool) : text := if s then ["-"%char] else [].

(** [f'{f:.2f}'] *)
Definition format_2f (f : float) : text :=
  match Prim2SF f with
  | S754_nan => lit "nan"
  | S754_infinity s => sign s ++ lit "inf"
  | S754_zero s => sign s ++ lit "0.00"
  | S754_finite s m e =>
      let n := hundredths m e in
      sign s ++ decimal (n / 100) ++ "."%char :: zfill 2 (decimal (n mod 100))
  end.

(** [round(f, 2)]: NaN and the infinities round to themselves; a finite
    number is converted to two decimals, correctly rounded, and the result
    is read back as the nearest float. *)
Definition round2 (f : float) : float :=
  match Prim2SF f with
  | S754_finite s m e =>
      match hundredths m e with
      | Zpos n =>
          SF2Prim (SFdiv prec emax (S754_finite s n 0) (S754_finite false 100 0))
      | _ => SF2Prim (S754_zero s)
      end
  | _ => f
  end.

End PyFormat.

(** ** [os.path.splitext] *)

Module PyPath.

(** [p.rfind(c)]: the index of the last [c] in [p], or [-1]. *)
Fixpoint rfind_from (c : ascii) (p : text) (i : Z) (found : Z) : Z :=
  match p with
  | [] => found
  | a :: p' => rfind_from c p' (i + 1) (if Ascii.eqb a c then i else found)
  end.

Definition rfind (c : ascii) (p : text) : Z := rfind_from c p 0 (-1).

Definition slice (p : text) (i j : Z) : text :=
  firstn (Z.to_nat (j - i)) (skipn (Z.to_nat i) p).

(** [posixpath.splitext]: the extension starts at the last dot of the last
    path component, unless that component has only dots before it. *)
Definition splitext (p : text) : text * text :=
  let sepIndex := rfind "/"%char p in
  let dotIndex := rfind "."%char p in
  if (sepIndex <? dotIndex)
     && existsb (fun a => negb (Ascii.eqb a "."%char)) (slice p (sepIndex + 1) dotIndex)
  then (firstn (Z.to_nat dotIndex) p, skipn (Z.to_nat dotIndex) p)
  else (p, []).

End PyPath.

(** ** The random module *)

(** The process-wide generator of Python's [random] module.  The script never
    seeds it; its state is whatever the interpreter started with.  The model
    keeps the sequence of values the generator is going to return and the
    number of values already drawn. *)
Record Generator : Type := {
  unit_draw : nat -> float;   (* what [random.random()] returns at each call *)
  int_draw : nat -> Z;        (* the integer a [randint] call is built from *)
  drawn : nat
}.

Definition advance (g : Generator) : Generator :=
  {| unit_draw := unit_draw g; int_draw := int_draw g; drawn := S (drawn g) |}.

Definition random (g : Generator) : float * Generator :=
  (unit_draw g (drawn g), advance g).

(** [random.randint(a, b)], a value in [a .. b]. *)
Definition randint (a b : Z) (g : Generator) : Z * Generator :=
  (a + int_draw g (drawn g) mod (b - a + 1), advance g).

(** [random.uniform(a, b)] is [a + (b - a) * random()]. *)
Definition uniform (a b : float) (g : Generator) : float * Generator :=
  let '(u, g') := random g in ((a + (b - a) * u)%float, g').

(** ** The simulation *)

(** The script works on the objects of the [coojasim] module, which it
    imports; the module is not part of the sources at hand, and its objects
    are modelled as the specification describes them (section 6). *)

(** Modelled from the spec: the position of a mote in [coojasim], two
    floating-point coordinates that can be assigned. *)
Record Position : Type := { pos_x : float; pos_y : float }.

(** Modelled from the spec: a mote of [coojasim], with an integer id that
    does not change and a position. *)
Record Mote : Type := { mote_id : Z; position : Position }.

(** Modelled from the spec: the class of the radio medium of [coojasim]; a
    [UDGMRadioMedium] has a transmitting range, another medium has none. *)
Inductive RadioMediumKind : Type :=
| UDGMRadioMedium (transmitting_range : float)
| OtherRadioMedium.

(** Modelled from the spec: the radio medium of [coojasim], with the two
    success ratios that can be assigned. *)
Record RadioMedium : Type := {
  kind : RadioMediumKind;
  success_ratio_tx : float;
  success_ratio_rx : float
}.

(** Modelled from the spec: the seed control of [coojasim], set to a number
    by [set_seed] or left to the simulator by [set_generated]. *)
Inductive RandomSeed : Type :=
| Seed (value : Z)
| Generated.

(** Modelled from the spec: the simulation [c.sim] of [coojasim], with its
    motes in order, its radio medium and its seed control. *)
Record Simulation : Type := {
  get_motes : list Mote;
  radio_medium : RadioMedium;
  random_seed : RandomSeed
}.

(** The assignments the script makes to these objects.  The motes are
    objects shared by [c.sim] and the list [motes] of the script; a mote is
    assigned its position once in a topology, just before it is appended to
    [motes], so the list of the placed motes is the state of the first motes
    of the simulation. *)

(** Modelled from the spec: [m.position.x = x; m.position.y = y]. *)
Definition set_position (m : Mote) (x y : float) : Mote :=
  {| mote_id := mote_id m; position := {| pos_x := x; pos_y := y |} |}.

(** The motes of the simulation once a topology is placed. *)
Definition set_motes (c : Simulation) (ms : list Mote) : Simulation :=
  {| get_motes := ms; radio_medium := radio_medium c; random_seed := random_seed c |}.

(** Modelled from the spec: [c.sim.random_seed.set_seed(s)]. *)
Definition set_seed (c : Simulation) (s : Z) : Simulation :=
  {| get_motes := get_motes c; radio_medium := radio_medium c; random_seed := Seed s |}.

(** Modelled from the spec: [c.sim.random_seed.set_generated()]. *)
Definition set_generated (c : Simulation) : Simulation :=
  {| get_motes := get_motes c; radio_medium := radio_medium c; random_seed := Generated |}.

(** Modelled from the spec: the two assignments
    [radio_medium.success_ratio_tx = t; radio_medium.success_ratio_rx = r]. *)
Definition set_success_ratios (c : Simulation) (t r : float) : Simulation :=
  {| get_motes := get_motes c;
     radio_medium := {| kind := kind (radio_medium c);
                        success_ratio_tx := t;
                        success_ratio_rx := r |};
     random_seed := random_seed c |}.

(** Modelled from the spec: what [c.save(output_file)] of [coojasim] writes,
    the file name and the simulation as it is at the call. *)
Record Artifact : Type := { file_name : text; content : Simulation }.

(** ** Command line *)

Inductive SeedPolicy : Type := Policy_r | Policy_g | Policy_f.

(** The parsed arguments ([-i] only names the file the simulation is loaded
    from). *)
Record Args : Type := {
  output : text;
  count : Z;
  seed_policy : SeedPolicy;
  topology : option string;
  min_distance : Z;
  tx_ratio : list float;
  rx_ratio : list float
}.

Definition set_ratio_lists (a : Args) (tx rx : list float) : Args :=
  {| output := output a; count := count a; seed_policy := seed_policy a;
     topology := topology a; min_distance := min_distance a;
     tx_ratio := tx; rx_ratio := rx |}.

Definition set_topology (a : Args) (t : option string) : Args :=
  {| output := output a; count := count a; seed_policy := seed_policy a;
     topology := t; min_distance := min_distance a;
     tx_ratio := tx_ratio a; rx_ratio := rx_ratio a |}.

(** ** Placement *)

(** Lines 12 to 15.  The two squares can raise [OverflowError]. *)
Definition get_distance (mote : Mote) (x y : float) : Res float :=
  let dx := abs (x - pos_x (position mote)) in
  let dy := abs (y - pos_y (position mote)) in
  dx2 <- PyFloat.pow2 dx ;;
  dy2 <- PyFloat.pow2 dy ;;
  PyFloat.math_sqrt (dx2 + dy2).

(** Lines 93 to 97, the first [for p in motes] loop: [done] becomes true at the first placed
    mote within the transmitting range, and the loop stops there. *)
Fixpoint in_range (motes : list Mote) (x y tx_range : float) : Res bool :=
  match motes with
  | [] => Ok false
  | p :: motes' =>
      distance <- get_distance p x y ;;
      if (distance <? tx_range)%float then Ok true else in_range motes' x y tx_range
  end.

(** Lines 99 to 103, the second [for p in motes] loop: [done] becomes false at the first
    placed mote closer than the minimal distance. *)
Fixpoint far_enough (motes : list Mote) (x y : float) (min_distance : Z) : Res bool :=
  match motes with
  | [] => Ok true
  | p :: motes' =>
      distance <- get_distance p x y ;;
      if PyFloat.lt_int distance min_distance then Ok false
      else far_enough motes' x y min_distance
  end.

(** What the placement reads besides the motes. *)
Record Constraints : Type := {
  tx_range : float;
  max_range : float;
  promote_multihop : bool;
  min_dist : Z
}.

(** Lines 87 to 92: the candidate, drawn in the window of the mode. *)
Definition draw_candidate (k : Constraints) (sx sy : float) (g : Generator)
  : float * float * Generator :=
  if promote_multihop k then
    let '(x, g1) := uniform (sx - max_range k / 2 + 1) (sx + max_range k / 2 - 1) g in
    let '(y, g2) := uniform (sy + 1) (sy + max_range k - 1) g1 in
    (x, y, g2)
  else
    let '(x, g1) := uniform (sx - max_range k + 1) (sx + max_range k - 1) g in
    let '(y, g2) := uniform (sy - max_range k + 1) (sy + max_range k - 1) g1 in
    (x, y, g2).

(** Lines 93 to 103: one pass of the body of [while not done], after the
    draw; the result is [done]. *)
Definition try_candidate (k : Constraints) (motes : list Mote) (x y : float) : Res bool :=
  done <- in_range motes x y (tx_range k) ;;
  if done && (0 <? min_dist k) then far_enough motes x y (min_dist k) else Ok done.

(** Lines 85 to 103: the [while not done] loop for one mote; it returns the
    coordinates the mote is given. *)
Fixpoint sample (fuel : nat) (k : Constraints) (sx sy : float) (motes : list Mote)
  (g : Generator) : Res (float * float) * Generator :=
  match fuel with
  | O => (OutOfFuel, g)
  | S fuel' =>
      let '(x, y, g') := draw_candidate k sx sy g in
      match try_candidate k motes x y with
      | Ok true => (Ok (x, y), g')
      | Ok false => sample fuel' k sx sy motes g'
      | Raise e => (Raise e, g')
      | OutOfFuel => (OutOfFuel, g')
      end
  end.

(** Lines 84 to 108, the [else] branch of [for m in c.sim.get_motes()], for
    the motes after the first: [motes] are the motes placed so far, in the
    order they were appended.  The loop returns how it ended and the list [motes] as it was
    then: all the motes when it ended well, the motes placed before the
    exception (or before the fuel was spent) otherwise. *)
Fixpoint place_rest (fuel : nat) (k : Constraints) (sx sy : float)
  (motes todo : list Mote) (g : Generator) : Res unit * list Mote * Generator :=
  match todo with
  | [] => (Ok tt, motes, g)
  | m :: todo' =>
      match sample fuel k sx sy motes g with
      | (Ok (x, y), g') =>
          place_rest fuel k sx sy (motes ++ [set_position m x y]) todo' g'
      | (Raise e, g') => (Raise e, motes, g')
      | (OutOfFuel, g') => (OutOfFuel, motes, g')
      end
  end.

(** Lines 77 to 108, the whole [for m in c.sim.get_motes()] loop: the first
    mote keeps its position, which becomes [(sx, sy)]. *)
Definition place (fuel : nat) (k : Constraints) (all : list Mote) (g : Generator)
  : Res unit * list Mote * Generator :=
  match all with
  | [] => (Ok tt, [], g)
  | m :: todo => place_rest fuel k (pos_x (position m)) (pos_y (position m)) [m] todo g
  end.

(** How a placement ended and the motes it had placed. *)
Definition outcome (r : Res unit * list Mote * Generator) : Res unit := fst (fst r).

Definition placed_by (r : Res unit * list Mote * Generator) : list Mote := snd (fst r).

(** ** Sweep over the success ratios and file names *)

(** [itertools.product(l1, l2)]: the pairs of a nested loop, [l1] outside. *)
Definition product {A B : Type} (l1 : list A) (l2 : list B) : list (A * B) :=
  flat_map (fun a => map (fun b => (a, b)) l2) l1.

(** Lines 114 to 119: the name of the file for topology [i], counted from
    0, and a pair of ratios. *)
Definition output_file (args : Args) (i : Z) (t_rat r_rat : float) : text :=
  let output_file := fst (PyPath.splitext (output args)) in
  let output_file :=
    if negb (Nat.eqb (List.length (rx_ratio args)) 1)
       || negb (Nat.eqb (List.length (tx_ratio args)) 1)
    then output_file ++ lit "-tx" ++ PyFormat.format_2f t_rat
                     ++ lit "-rx" ++ PyFormat.format_2f r_rat
    else output_file in
  let output_file :=
    if 1 <? count args then output_file ++ "-"%char :: PyFormat.format_05 (i + 1)
    else output_file in
  output_file ++ lit ".csc".

(** Lines 110 to 121: the body of [for t_rat, r_rat in product(...)], over
    the pairs that are left; [saved] are the files written so far. *)
Fixpoint sweep (args : Args) (i : Z) (pairs : list (float * float))
  (c : Simulation) (saved : list Artifact) : Simulation * list Artifact :=
  match pairs with
  | [] => (c, saved)
  | (t_rat, r_rat) :: pairs' =>
      let c' := set_success_ratios c t_rat r_rat in
      sweep args i pairs' c'
        (saved ++ [{| file_name := output_file args i t_rat r_rat; content := c' |}])
  end.

(** ** The script *)

(** Lines 36 and 39: [min(l) < 0.0 or max(l) > 1.0]. *)
Definition out_of_range (l : list float) : Res bool :=
  lo <- PyFloat.min l ;;
  if (lo <? 0)%float then Ok true
  else hi <- PyFloat.max l ;; Ok (1 <? hi)%float.

(** Line 55. *)
Definition get_tx_range (c : Simulation) : float :=
  match kind (radio_medium c) with
  | UDGMRadioMedium transmitting_range => transmitting_range
  | OtherRadioMedium => 50%float
  end.

(** Lines 36 to 65: the checks of the arguments and what is computed once,
    before the first topology.  It returns the arguments with the ratios
    rounded, the simulation and the constraints of the placement. *)
Definition configure (args : Args) (c : Simulation) : Res (Args * Simulation * Constraints) :=
  bad_tx <- out_of_range (tx_ratio args) ;;
  if bad_tx : bool then Raise (SystemExit "Invalid Tx ratio") else
  bad_rx <- out_of_range (rx_ratio args) ;;
  if bad_rx : bool then Raise (SystemExit "Invalid Rx ratio") else
  let args := set_ratio_lists args (map PyFormat.round2 (tx_ratio args))
                                   (map PyFormat.round2 (rx_ratio args)) in
  let c := match seed_policy args with Policy_g => set_generated c | _ => c end in
  let tx_range := get_tx_range c in
  let max_range := (tx_range * PyFloat.of_nat (List.length (get_motes c)))%float in
  if (0 <? min_distance args) && PyFloat.int_ge (min_distance args) tx_range
  then Raise (SystemExit "Too large minimal distance") else
  let promote_multihop :=
    match topology args with
    | Some t => negb (String.eqb t "spread")
    | None => true
    end in
  Ok (args, c, {| tx_range := tx_range; max_range := max_range;
                  promote_multihop := promote_multihop;
                  min_dist := min_distance args |}).

(** Lines 71 to 75: the seed of the simulation for topology [i]. *)
Definition reseed (args : Args) (i : Z) (c : Simulation) (g : Generator)
  : Simulation * Generator :=
  match seed_policy args with
  | Policy_r => let '(s, g') := randint 0 0x7fffffff g in (set_seed c s, g')
  | Policy_f => (set_seed c i, g)
  | Policy_g => (c, g)
  end.

(** Lines 67 to 121: [for i in range(0, args.count)], over the [n]
    topologies that are left, the next one being [i]. *)
Fixpoint batch (fuel : nat) (args : Args) (k : Constraints) (n : nat) (i : Z)
  (c : Simulation) (g : Generator) (saved : list Artifact)
  : Res unit * list Artifact :=
  match n with
  | O => (Ok tt, saved)
  | S n' =>
      let '(c1, g1) := reseed args i c g in
      match place fuel k (get_motes c1) g1 with
      | (Ok _, motes, g2) =>
          let '(c2, saved') :=
            sweep args i (product (tx_ratio args) (rx_ratio args))
                  (set_motes c1 motes) saved in
          batch fuel args k n' (i + 1) c2 g2 saved'
      | (Raise e, _, _) => (Raise e, saved)
      | (OutOfFuel, _, _) => (OutOfFuel, saved)
      end
  end.

(** [main], from the parsed arguments and the loaded simulation: how it ends
    and the files it has saved, in the order of the calls of [c.save]. *)
Definition main (fuel : nat) (args : Args) (c : Simulation) (g : Generator)
  : Res unit * list Artifact :=
  match configure args c with
  | Ok (args', c', k) => batch fuel args' k (Z.to_nat (count args')) 0 c' g []
  | Raise e => (Raise e, [])
  | OutOfFuel => (OutOfFuel, [])
  end.

(** ** A small scenario

    Three motes, a UDGM medium with a range of 50, and a generator whose
    draws put every candidate straight above the first mote. *)

Definition demo_motes : list Mote :=
  [ {| mote_id := 1; position := {| pos_x := 0; pos_y := 0 |} |};
    {| mote_id := 2; position := {| pos_x := 10; pos_y := 10 |} |};
    {| mote_id := 3; position := {| pos_x := 20; pos_y := 20 |} |} ].

Definition demo_sim : Simulation :=
  {| get_motes := demo_motes;
     radio_medium := {| kind := UDGMRadioMedium 50;
                        success_ratio_tx := 1; success_ratio_rx := 1 |};
     random_seed := Seed 123456 |}.

Definition demo_generator : Generator :=
  {| unit_draw := fun n => if Nat.even n then 0.5%float
                           else (PyFloat.of_nat n / 64)%float;
     int_draw := fun n => Z.of_nat n;
     drawn := 0 |}.

Definition demo_constraints : Constraints :=
  {| tx_range := 50; max_range := 150; promote_multihop := true; min_dist := 5 |}.

Definition demo_placed : list Mote :=
  [ {| mote_id := 1; position := {| pos_x := 0; pos_y := 0 |} |};
    {| mote_id := 2; position := {| pos_x := 0; pos_y := 7.9375 |} |};
    {| mote_id := 3; position := {| pos_x := 0; pos_y := 17.1875 |} |} ].

Definition demo_args : Args :=
  {| output := lit "out/topo.csc"; count := 2; seed_policy := Policy_f;
     topology := None; min_distance := 5;
     tx_ratio := [0.5%float; 0.875%float]; rx_ratio := [1%float] |}.

(** ** Predicates of the statements *)

(** The file saved for the pair [(t_rat, r_rat)] in topology [i]. *)
Definition snapshot (args : Args) (i : Z) (c : Simulation) (p : float * float) : Artifact :=
  {| file_name := output_file args i (fst p) (snd p);
     content := set_success_ratios c (fst p) (snd p) |}.

Definition anchor (ms : list Mote) : option Mote := hd_error ms.



(** The constraints of the placement, as [configure] computes them. *)
Definition constraints_of (args : Args) (c : Simulation) : Constraints :=
  {| tx_range := get_tx_range c;
     max_range := (get_tx_range c * PyFloat.of_nat (List.length (get_motes c)))%float;
     promote_multihop :=
       match topology args with
       | Some t => negb (String.eqb t "spread")
       | None => true
       end;
     min_dist := min_distance args |}.


(** The characters of a formatted number. *)
Definition digit (a : ascii) : Prop := In a (lit "0123456789").

Definition numeric (a : ascii) : Prop := In a (lit "0123456789.-naif").

(** A scenario with the same tx ratio given twice. *)
Definition twice_args : Args :=
  {| output := lit "out/topo.csc"; count := 1; seed_policy := Policy_g;
     topology := None; min_distance := 0;
     tx_ratio := [0.5%float; 0.5%float]; rx_ratio := [1%float] |}.

(** A second generator, whose draws differ from the first one's. *)
Definition other_generator : Generator :=
  {| unit_draw := fun n => if Nat.even n then 0.5%float
                           else (PyFloat.of_nat n / 32)%float;
     int_draw := fun n => Z.of_nat n;
     drawn := 0 |}.

(** Where a saved file has its motes. *)
Definition positions (a : Artifact) : list Position :=
  map position (get_motes (content a)).

(** The third file saved by the small scenario. *)
Definition demo_third_file : Artifact :=
  nth 2 (snd (main 10 demo_args demo_sim demo_generator))
      {| file_name := []; content := demo_sim |}.

(** A simulation with one mote and a UDGM medium whose range is 0, and
    arguments that leave the minimal distance at its default. *)
Definition zero_range_sim : Simulation :=
  {| get_motes := [ {| mote_id := 1; position := {| pos_x := 0; pos_y := 0 |} |} ];
     radio_medium := {| kind := UDGMRadioMedium 0;
                        success_ratio_tx := 1; success_ratio_rx := 1 |};
     random_seed := Seed 123456 |}.

Definition default_args : Args :=
  {| output := lit "out/topo.csc"; count := 1; seed_policy := Policy_r;
     topology := None; min_distance := 0;
     tx_ratio := [1%float]; rx_ratio := [1%float] |}.

(** Arguments as parsed from [--seed f --tx-ratio nan 5]. *)
Definition nan_args : Args :=
  {| output := lit "out/topo.csc"; count := 1; seed_policy := Policy_f;
     topology := None; min_distance := 0;
     tx_ratio := [nan; 5%float]; rx_ratio := [1%float] |}.

(** The tx ratio a saved file was written with. *)
Definition applied_tx (a : Artifact) : float := success_ratio_tx (radio_medium (content a)).

(** The mode the script derives from [--topology]. *)
Definition mode_of (t : option string) : bool :=
  match t with
  | Some t => negb (String.eqb t "spread")
  | None => true
  end.

Definition set_mode (k : Constraints) (b : bool) : Constraints :=
  {| tx_range := tx_range k; max_range := max_range k;
     promote_multihop := b; min_dist := min_dist k |}.

(** Classes of IEEE numbers, on their specification: a number that is not a
    NaN and has the sign [s]; a finite number; a number that is neither a NaN
    nor plus infinity. *)
Definition signed (s : bool) (f : spec_float) : Prop :=
  match f with
  | S754_zero s' | S754_infinity s' | S754_finite s' _ _ => s' = s
  | S754_nan => False
  end.

Definition fin (f : spec_float) : bool :=
  match f with S754_zero _ | S754_finite _ _ _ => true | _ => false end.


(** A mote whose coordinates are finite numbers. *)
Definition finite_mote (m : Mote) : Prop :=
  PyFloat.isfinite (pos_x (position m)) = true /\
  PyFloat.isfinite (pos_y (position m)) = true.


(** ** The order of the floats

    The comparisons of IEEE numbers that are not NaN follow the order of
    these triples: the class of the number (minus infinity, negative, zero,
    positive, plus infinity), then exponent and mantissa, reversed for the
    negative numbers. *)
Definition rank (f : spec_float) : Z * Z * Z :=
  match f with
  | S754_infinity true => (-2, 0, 0)
  | S754_finite true m e => (-1, - e, Zneg m)
  | S754_zero _ => (0, 0, 0)
  | S754_nan => (0, 0, 0)
  | S754_finite false m e => (1, e, Zpos m)
  | S754_infinity false => (2, 0, 0)
  end.

Definition rank_lt (r s : Z * Z * Z) : Prop :=
  let '(r1, r2, r3) := r in
  let '(s1, s2, s3) := s in
  r1 < s1 \/ (r1 = s1 /\ (r2 < s2 \/ (r2 = s2 /\ r3 < s3))).

Definition rank_le (r s : Z * Z * Z) : Prop :=
  let '(r1, r2, r3) := r in
  let '(s1, s2, s3) := s in
  r1 < s1 \/ (r1 = s1 /\ (r2 < s2 \/ (r2 = s2 /\ r3 <= s3))).

(** [0.0 <= v <= 1.0] *)
Definition is_ratio (v : float) : bool := ((0 <=? v) && (v <=? 1))%float.

(** A list of floats none of which is a NaN. *)
Definition no_nan (l : list float) : Prop := Forall (fun v => PyFloat.isnan v = false) l.

(** ** What a run leaves of the simulation it was given *)

(** The simulation [c'] has the motes of [c], by id and in order, with the
    first mote as it is in [c], and a radio medium of the same class and
    range. *)
Definition same_frame (c c' : Simulation) : Prop :=
  map mote_id (get_motes c') = map mote_id (get_motes c) /\
  anchor (get_motes c') = anchor (get_motes c) /\
  kind (radio_medium c') = kind (radio_medium c).

(** The rx ratio a saved file was written with. *)
Definition applied_rx (a : Artifact) : float := success_ratio_rx (radio_medium (content a)).


(** The first file saved for the arguments with a ratio given twice. *)
Definition twice_first_file : Artifact :=
  nth 0 (snd (main 10 twice_args demo_sim demo_generator))
      {| file_name := []; content := demo_sim |}.

(** ** The name of the output file, when the path ends in [.csc] *)



(** * Running the simulations

    The part of [scripts/run-cooja.py] that computes: where the data trace of
    a simulation goes and how the log of the simulation script is read.
    Running Cooja, the clock and the files are outside the model; what
    [run_simulation] gets from them comes in as arguments. *)

Module PyStr.

Definition text_eqb (s t : text) : bool :=
  if list_eq_dec ascii_dec s t then true else false.

(** [s.startswith(prefix)] and [s.endswith(suffix)] *)
Definition startswith (s prefix : text) : bool :=
  text_eqb (firstn (List.length prefix) s) prefix.

Definition endswith (s suffix : text) : bool :=
  (List.length suffix <=? List.length s)%nat
  && text_eqb (skipn (List.length s - List.length suffix) s) suffix.

(** [s[:-n]] for [n > 0] *)
Definition drop_last (n : nat) (s : text) : text := firstn (List.length s - n) s.

(** [str.isspace] on the characters below 256. *)
Definition isspace (a : ascii) : bool :=
  existsb (Nat.eqb (nat_of_ascii a)) [9; 10; 11; 12; 13; 28; 29; 30; 31; 32; 133; 160]%nat.

Fixpoint lstrip (s : text) : text :=
  match s with
  | a :: s' => if isspace a then lstrip s' else s
  | [] => []
  end.

Definition rstrip (s : text) : text := rev (lstrip (rev s)).

(** [s.strip()] *)
Definition strip (s : text) : text := lstrip (rstrip s).

(** [s.split(sep)] for a separator of one character: the parts between the
    separators, one part more than there are separators. *)
Fixpoint split (sep : ascii) (s : text) : list text :=
  match s with
  | [] => [[]]
  | a :: s' =>
      if Ascii.eqb a sep then [] :: split sep s'
      else match split sep s' with
           | p :: ps => (a :: p) :: ps
           | [] => [[a]]
           end
  end.

(** [posixpath.join(a, b)] *)
Definition join (a b : text) : text :=
  if startswith b (lit "/") then b
  else if (Nat.eqb (List.length a) 0) || endswith a (lit "/") then a ++ b
  else a ++ lit "/" ++ b.

End PyStr.

Module RunCooja.

(** Lines 49 to 57 of [run_simulation]: the directory of the data trace,
    from the simulation file, the output path if there is one, and the
    identifier made from the clock. *)
Definition target_basename (cooja_file : text) (output_path : option text)
  (simulation_id : text) : text :=
  let target_basename := cooja_file in
  let target_basename :=
    if PyStr.endswith target_basename (lit ".csc.gz") then PyStr.drop_last 7 target_basename
    else if PyStr.endswith target_basename (lit ".csc") then PyStr.drop_last 4 target_basename
    else target_basename in
  let target_basename :=
    match output_path with
    | Some output_path => PyStr.join output_path target_basename
    | None => target_basename
    end in
  target_basename ++ lit "-dt-" ++ simulation_id.

(** Lines 96 and 97: the test on one line of the log of the script. *)
Definition line_is_test_ok (line : text) : bool :=
  let parts := PyStr.split "009"%char (PyStr.strip line) in
  Nat.eqb (List.length parts) 2 && PyStr.text_eqb (nth 1 parts []) (lit "TEST OK").

(** Lines 93 to 99: the loop over the lines, with the flag [is_done]. *)
Fixpoint scan (lines : list text) (is_done : bool) : bool :=
  match lines with
  | [] => is_done
  | line :: lines' => scan lines' (if line_is_test_ok line then true else is_done)
  end.

(** What [run_simulation] returns, from the return code of Cooja, whether
    the log of the script exists, and the lines of that log (lines 80 to
    107). *)
Definition run_simulation (return_code : Z) (has_script_output : bool)
  (lines : list text) : bool :=
  if negb (return_code =? 0) || negb has_script_output then false
  else
    let is_done := scan lines false in
    if negb is_done then false else true.

End RunCooja.

(** A line of the log that reports the test as passed, and a log. *)
Definition ok_line : text := lit "12345678" ++ "009"%char :: lit "TEST OK" ++ ["010"%char].

Definition demo_log : list text :=
  [ lit "starting" ++ ["010"%char]; ok_line; "009"%char :: lit "TEST OK" ++ ["010"%char] ].

(** * Properties *)

(** ** The rejection sampling *)

Lemma bind_Ok {A B : Type} (r : Res A) (k : A -> Res B) (b : B) :
  bind r k = Ok b -> exists a, r = Ok a /\ k a = Ok b.
Proof.
  destruct r as [a | e | ]; simpl; intros H; try discriminate.
  exists a; split; [reflexivity | exact H].
Qed.

(** A candidate that leaves the loop has passed the body of the loop. *)
Lemma sample_accepts fuel k sx sy motes g x y g' :
  sample fuel k sx sy motes g = (Ok (x, y), g') ->
  try_candidate k motes x y = Ok true.
Proof.
  revert g; induction fuel as [ | fuel IH]; intros g; simpl; [discriminate | ].
  destruct (draw_candidate k sx sy g) as [[x0 y0] g0].
  destruct (try_candidate k motes x0 y0) as [[ | ] | e | ] eqn:T;
    try discriminate.
  - intros H; injection H as -> -> _; exact T.
  - apply IH.
Qed.

Lemma in_range_witness motes x y R :
  in_range motes x y R = Ok true ->
  exists p d, In p motes /\ get_distance p x y = Ok d /\ (d <? R)%float = true.
Proof.
  induction motes as [ | p motes IH]; simpl; [discriminate | ].
  intros H; apply bind_Ok in H; destruct H as (d & Hd & H).
  destruct (d <? R)%float eqn:L.
  - exists p, d; auto.
  - destruct (IH H) as (q & d' & Hq & Hd' & L'); exists q, d'; auto.
Qed.


Lemma try_candidate_in_range k motes x y :
  try_candidate k motes x y = Ok true -> in_range motes x y (tx_range k) = Ok true.
Proof.
  unfold try_candidate; intros H; apply bind_Ok in H; destruct H as ([ | ] & Hd & H).
  - exact Hd.
  - simpl in H; discriminate.
Qed.


(** ** Invariants of the loop over the motes *)


(** The placed motes are the motes the loop started with, untouched,
    followed by the first motes that were left to place, in the same order,
    with new positions only; none is left when the loop ends well. *)
Lemma place_rest_shape fuel k sx sy todo :
  forall motes g,
    exists rest left,
      placed_by (place_rest fuel k sx sy motes todo g) = motes ++ rest /\
      map mote_id todo = map mote_id rest ++ left /\
      (outcome (place_rest fuel k sx sy motes todo g) = Ok tt -> left = []).
Proof.
  induction todo as [ | m todo IH]; intros motes g; simpl.
  - exists [], []; repeat split; symmetry; apply app_nil_r.
  - destruct (sample fuel k sx sy motes g) as [[[x y] | e | ] g1] eqn:S.
    + destruct (IH (motes ++ [set_position m x y]) g1) as (rest & left & -> & Hid & Hleft).
      exists (set_position m x y :: rest), left; repeat split.
      * rewrite <- app_assoc; reflexivity.
      * simpl; rewrite Hid; reflexivity.
      * exact Hleft.
    + exists [], (mote_id m :: map mote_id todo); repeat split;
        [symmetry; apply app_nil_r | discriminate].
    + exists [], (mote_id m :: map mote_id todo); repeat split;
        [symmetry; apply app_nil_r | discriminate].
Qed.


(** ** Placement of one topology *)



Lemma place_head fuel k all g :
  anchor (placed_by (place fuel k all g)) = anchor all.
Proof.
  destruct all as [ | m todo]; simpl; [reflexivity | ].
  destruct (place_rest_shape fuel k (pos_x (position m)) (pos_y (position m)) todo [m] g)
    as (rest & left & -> & _); reflexivity.
Qed.

(** ** The sweep *)

Lemma sweep_saved args i pairs :
  forall c saved,
    snd (sweep args i pairs c saved) = saved ++ map (snapshot args i c) pairs.
Proof.
  induction pairs as [ | [t r] pairs IH]; intros c saved; simpl.
  - symmetry; apply app_nil_r.
  - rewrite IH, <- app_assoc; reflexivity.
Qed.

Lemma sweep_sim args i pairs :
  forall c saved,
    let c' := fst (sweep args i pairs c saved) in
    get_motes c' = get_motes c /\ random_seed c' = random_seed c /\
    kind (radio_medium c') = kind (radio_medium c).
Proof.
  induction pairs as [ | [t r] pairs IH]; intros c saved; simpl.
  - auto.
  - destruct (IH (set_success_ratios c t r)
                (saved ++ [{| file_name := output_file args i t r;
                              content := set_success_ratios c t r |}]))
      as (H1 & H2 & H3).
    rewrite H1, H2, H3; auto.
Qed.

(** ** The batch *)

Lemma reseed_motes args i c g :
  get_motes (fst (reseed args i c g)) = get_motes c.
Proof.
  unfold reseed; destruct (seed_policy args); reflexivity.
Qed.

(** The files saved by the batch come after the files saved before it. *)
Lemma batch_extends fuel args k n :
  forall i c g saved,
    exists new, snd (batch fuel args k n i c g saved) = saved ++ new.
Proof.
  induction n as [ | n IH]; intros i c g saved; simpl.
  - exists []; symmetry; apply app_nil_r.
  - destruct (reseed args i c g) as [c1 g1].
    destruct (place fuel k (get_motes c1) g1) as [[[[] | e | ] motes] g2];
      try (exists []; symmetry; apply app_nil_r).
    destruct (sweep args i _ (set_motes c1 motes) saved) as [c2 saved'] eqn:S.
    destruct (IH (i + 1) c2 g2 saved') as (new & ->).
    pose proof (sweep_saved args i (product (tx_ratio args) (rx_ratio args))
                  (set_motes c1 motes) saved) as HS.
    rewrite S in HS; simpl in HS; rewrite HS, <- app_assoc; eauto.
Qed.

Lemma batch_anchor fuel args k n :
  forall i c g saved a,
    (forall b, In b saved -> anchor (get_motes (content b)) = anchor (get_motes c)) ->
    In a (snd (batch fuel args k n i c g saved)) ->
    anchor (get_motes (content a)) = anchor (get_motes c).
Proof.
  induction n as [ | n IH]; intros i c g saved a Hsaved; simpl.
  - apply Hsaved.
  - pose proof (reseed_motes args i c g) as HR.
    destruct (reseed args i c g) as [c1 g1]; simpl in HR.
    destruct (place fuel k (get_motes c1) g1) as [[[[] | e | ] motes] g2] eqn:P;
      try (apply Hsaved).
    assert (HA : anchor motes = anchor (get_motes c)).
    { rewrite <- HR; pose proof (place_head fuel k (get_motes c1) g1) as HA.
      rewrite P in HA; exact HA. }
    pose proof (sweep_saved args i (product (tx_ratio args) (rx_ratio args))
                  (set_motes c1 motes) saved) as HS.
    pose proof (sweep_sim args i (product (tx_ratio args) (rx_ratio args))
                  (set_motes c1 motes) saved) as (HM & _).
    destruct (sweep args i _ (set_motes c1 motes) saved) as [c2 saved'].
    simpl in HS, HM; intros Ha; rewrite <- HA, <- HM.
    apply (IH (i + 1) c2 g2 saved' a); [ | exact Ha].
    intros b Hb; rewrite HS in Hb; apply in_app_or in Hb; destruct Hb as [Hb | Hb].
    + rewrite HM, HA; apply Hsaved; exact Hb.
    + apply in_map_iff in Hb; destruct Hb as (p & <- & _); simpl; rewrite HM; reflexivity.
Qed.

(** ** The checks before the first topology *)

Lemma configure_Ok args c args' c' k :
  configure args c = Ok (args', c', k) ->
  out_of_range (tx_ratio args) = Ok false /\
  out_of_range (rx_ratio args) = Ok false /\
  (0 <? min_distance args) && PyFloat.int_ge (min_distance args) (get_tx_range c) = false /\
  args' = set_ratio_lists args (map PyFormat.round2 (tx_ratio args))
                               (map PyFormat.round2 (rx_ratio args)) /\
  c' = match seed_policy args with Policy_g => set_generated c | _ => c end /\
  k = constraints_of args c.
Proof.
  unfold configure; intros H.
  apply bind_Ok in H; destruct H as ([ | ] & Htx & H); [discriminate | ].
  apply bind_Ok in H; destruct H as ([ | ] & Hrx & H); [discriminate | ].
  cbv zeta in H.
  assert (HR : get_tx_range
                 match seed_policy args with Policy_g => set_generated c | _ => c end
               = get_tx_range c) by (destruct (seed_policy args); reflexivity).
  assert (HM : get_motes
                 match seed_policy args with Policy_g => set_generated c | _ => c end
               = get_motes c) by (destruct (seed_policy args); reflexivity).
  simpl in H; rewrite HR, HM in H.
  destruct ((0 <? min_distance args) && PyFloat.int_ge (min_distance args) (get_tx_range c));
    [discriminate | ].
  injection H as <- <- <-; repeat split; assumption.
Qed.

(** Across the topologies of a run: every saved file has the first mote
    where the loaded simulation had it. *)
Lemma anchor_in_saved_files fuel args c g a :
  In a (snd (main fuel args c g)) ->
  anchor (get_motes (content a)) = anchor (get_motes c).
Proof.
  unfold main; destruct (configure args c) as [[[args' c'] k] | e | ] eqn:E;
    simpl; try tauto.
  apply configure_Ok in E; destruct E as (_ & _ & _ & _ & Hc & _).
  assert (HM : get_motes c' = get_motes c)
    by (subst c'; destruct (seed_policy args); reflexivity).
  rewrite <- HM; apply batch_anchor; intros b [].
Qed.

(** C3: whatever the placement is given and however it ends, the first of
    the placed motes is the first mote as it was before, position included;
    the placed motes are the first motes of the simulation (same ids, same
    order), all of them when the placement ends well. *)
Theorem anchor_invariance fuel k all g :
  anchor (placed_by (place fuel k all g)) = anchor all /\
  exists left,
    map mote_id all = map mote_id (placed_by (place fuel k all g)) ++ left /\
    (outcome (place fuel k all g) = Ok tt -> left = []).
Proof.
  destruct all as [ | m todo]; simpl.
  - split; [reflexivity | exists []; split; reflexivity].
  - destruct (place_rest_shape fuel k (pos_x (position m)) (pos_y (position m)) todo [m] g)
      as (rest & left & E & Hid & Hleft).
    unfold placed_by, outcome in *; rewrite E; split; [reflexivity | ].
    exists left; split; [simpl; rewrite Hid; reflexivity | exact Hleft].
Qed.

(** ** The cross product of the ratio lists *)

Lemma div_sub_step (n q : nat) :
  n <> 0%nat -> (n <= q)%nat -> (q / n = S ((q - n) / n))%nat.
Proof.
  intros Hn Hq; replace q with ((q - n) + 1 * n)%nat at 1 by lia.
  rewrite Nat.div_add by exact Hn; lia.
Qed.

Lemma product_cons {A B : Type} (a : A) (l1 : list A) (l2 : list B) :
  product (a :: l1) l2 = map (fun b => (a, b)) l2 ++ product l1 l2.
Proof. reflexivity. Qed.

Lemma length_product {A B : Type} (l1 : list A) (l2 : list B) :
  List.length (product l1 l2) = (List.length l1 * List.length l2)%nat.
Proof.
  induction l1 as [ | a l1 IH]; [reflexivity | ].
  rewrite product_cons, length_app, length_map, IH; reflexivity.
Qed.


Lemma in_product {A B : Type} (a : A) (b : B) l1 l2 :
  In (a, b) (product l1 l2) <-> In a l1 /\ In b l2.
Proof.
  unfold product; rewrite in_flat_map; split.
  - intros (a' & Ha & H); apply in_map_iff in H; destruct H as (b' & H & Hb).
    injection H as -> ->; auto.
  - intros (Ha & Hb); exists a; split; [exact Ha | ].
    apply in_map_iff; exists b; auto.
Qed.



(** The sweep saves no file when a ratio list is empty, and the count of the
    files of a batch that ends is the count of topologies times the size of
    the cross product. *)
Lemma batch_count fuel args k n :
  forall i c g saved,
    fst (batch fuel args k n i c g saved) = Ok tt ->
    List.length (snd (batch fuel args k n i c g saved)) =
    (List.length saved + n * (List.length (tx_ratio args) * List.length (rx_ratio args)))%nat.
Proof.
  induction n as [ | n IH]; intros i c g saved; simpl; [lia | ].
  destruct (reseed args i c g) as [c1 g1].
  destruct (place fuel k (get_motes c1) g1) as [[[[] | e | ] motes] g2]; try discriminate.
  pose proof (sweep_saved args i (product (tx_ratio args) (rx_ratio args))
                (set_motes c1 motes) saved) as HS.
  destruct (sweep args i _ (set_motes c1 motes) saved) as [c2 saved'].
  simpl in HS; intros H; rewrite (IH _ _ _ _ H), HS, length_app, length_map, length_product.
  lia.
Qed.

(** ** File names *)



(** ** Characters of the formatted numbers *)

Lemma digits_of_uint_digit d : Forall digit (PyFormat.digits_of_uint d).
Proof.
  induction d; simpl; constructor; try assumption; unfold digit; simpl; tauto.
Qed.

Lemma digits_of_uint_inj d : forall d',
  PyFormat.digits_of_uint d = PyFormat.digits_of_uint d' -> d = d'.
Proof.
  induction d; intros d'; destruct d'; simpl; intros H; try discriminate;
    try reflexivity; injection H as H; f_equal; auto.
Qed.

Lemma repeat_zero_digits k u :
  repeat "0"%char k ++ PyFormat.digits_of_uint u =
  PyFormat.digits_of_uint (Nat.iter k Decimal.D0 u).
Proof.
  induction k as [ | k IH]; simpl; [reflexivity | rewrite IH; reflexivity].
Qed.

Lemma of_uint_leading_zeros k u :
  N.of_uint (Nat.iter k Decimal.D0 u) = N.of_uint u.
Proof.
  induction k as [ | k IH]; simpl; [reflexivity | exact IH].
Qed.

Lemma zfill_digit w n : Forall digit (PyFormat.zfill w (PyFormat.decimal n)).
Proof.
  unfold PyFormat.zfill, PyFormat.decimal; rewrite repeat_zero_digits.
  apply digits_of_uint_digit.
Qed.

Lemma zfill_decimal_inj w n m :
  0 <= n -> 0 <= m ->
  PyFormat.zfill w (PyFormat.decimal n) = PyFormat.zfill w (PyFormat.decimal m) ->
  n = m.
Proof.
  unfold PyFormat.zfill, PyFormat.decimal; intros Hn Hm H.
  rewrite !repeat_zero_digits in H; apply digits_of_uint_inj in H.
  apply (f_equal N.of_uint) in H.
  rewrite !of_uint_leading_zeros, !DecimalN.Unsigned.of_to in H; lia.
Qed.

Lemma format_05_digit n : 0 <= n -> Forall digit (PyFormat.format_05 n).
Proof.
  intros Hn; unfold PyFormat.format_05.
  destruct (n <? 0) eqn:E; [apply Z.ltb_lt in E; lia | apply zfill_digit].
Qed.

Lemma format_05_inj n m :
  0 <= n -> 0 <= m -> PyFormat.format_05 n = PyFormat.format_05 m -> n = m.
Proof.
  intros Hn Hm; unfold PyFormat.format_05.
  destruct (n <? 0) eqn:E; [apply Z.ltb_lt in E; lia | ].
  destruct (m <? 0) eqn:E'; [apply Z.ltb_lt in E'; lia | ].
  apply zfill_decimal_inj; assumption.
Qed.

Lemma digit_numeric a : digit a -> numeric a.
Proof.
  unfold digit, numeric; simpl; tauto.
Qed.

Lemma format_2f_numeric f : Forall numeric (PyFormat.format_2f f).
Proof.
  assert (Hsign : forall s, Forall numeric (PyFormat.sign s)).
  { intros [ | ]; simpl; repeat constructor; unfold numeric; simpl; tauto. }
  assert (Hlit : forall s, forallb (fun a => existsb (Ascii.eqb a) (lit "0123456789.-naif"))
                             (lit s) = true -> Forall numeric (lit s)).
  { intros s H; apply Forall_forall; intros a Ha.
    rewrite forallb_forall in H; specialize (H a Ha).
    apply existsb_exists in H; destruct H as (b & Hb & E).
    apply Ascii.eqb_eq in E; subst b; exact Hb. }
  unfold PyFormat.format_2f; destruct (Prim2SF f) as [s | s | | s m e].
  - apply Forall_app; split; [apply Hsign | apply Hlit; reflexivity].
  - apply Forall_app; split; [apply Hsign | apply Hlit; reflexivity].
  - apply Hlit; reflexivity.
  - cbv zeta; apply Forall_app; split; [apply Hsign | ].
    apply Forall_app; split.
    + eapply Forall_impl; [exact digit_numeric | apply digits_of_uint_digit].
    + constructor; [unfold numeric; simpl; tauto | ].
      eapply Forall_impl; [exact digit_numeric | apply zfill_digit].
Qed.

Lemma not_in_numeric (a : ascii) (s : text) :
  ~ numeric a -> Forall numeric s -> ~ In a s.
Proof.
  intros Ha Hs Hin; rewrite Forall_forall in Hs; exact (Ha (Hs a Hin)).
Qed.

Lemma not_in_digit (a : ascii) (s : text) :
  ~ digit a -> Forall digit s -> ~ In a s.
Proof.
  intros Ha Hs Hin; rewrite Forall_forall in Hs; exact (Ha (Hs a Hin)).
Qed.

Lemma r_not_numeric : ~ numeric "r"%char.
Proof.
  unfold numeric; simpl; intros H.
  repeat (destruct H as [H | H]; [discriminate H | ]); exact H.
Qed.

Lemma dash_not_digit : ~ digit "-"%char.
Proof.
  unfold digit; simpl; intros H.
  repeat (destruct H as [H | H]; [discriminate H | ]); exact H.
Qed.

(** Two texts cut at the first (or at the last) occurrence of a character
    are equal only part by part. *)
Lemma cut_at_first (a : ascii) (x1 x2 y1 y2 : text) :
  ~ In a x1 -> ~ In a y1 -> x1 ++ a :: x2 = y1 ++ a :: y2 -> x1 = y1 /\ x2 = y2.
Proof.
  intros Hx Hy H; destruct (app_inj_pivot _ _ _ _ _ H) as [[[? _] | [_ ?]] | ?];
    tauto.
Qed.

Lemma cut_at_last (a : ascii) (x1 x2 y1 y2 : text) :
  ~ In a x2 -> ~ In a y2 -> x1 ++ a :: x2 = y1 ++ a :: y2 -> x1 = y1 /\ x2 = y2.
Proof.
  intros Hx Hy H; destruct (app_inj_pivot _ _ _ _ _ H) as [[[_ ?] | [? _]] | ?];
    tauto.
Qed.

(** The ratio suffix determines the two formatted ratios. *)
Lemma ratio_suffix_inj t r t' r' :
  lit "-tx" ++ PyFormat.format_2f t ++ lit "-rx" ++ PyFormat.format_2f r =
  lit "-tx" ++ PyFormat.format_2f t' ++ lit "-rx" ++ PyFormat.format_2f r' ->
  PyFormat.format_2f t = PyFormat.format_2f t' /\
  PyFormat.format_2f r = PyFormat.format_2f r'.
Proof.
  intros H; apply app_inv_head in H.
  change (lit "-rx") with (["-"%char] ++ "r"%char :: ["x"%char]) in H.
  rewrite <- !app_assoc in H; simpl in H.
  assert (Hcut : forall f, ~ In "r"%char (PyFormat.format_2f f ++ ["-"%char])).
  { intros f Hin; apply in_app_or in Hin; destruct Hin as [Hin | [Hin | []]].
    - exact (not_in_numeric _ _ r_not_numeric (format_2f_numeric f) Hin).
    - discriminate Hin. }
  change (PyFormat.format_2f t ++ "-"%char :: "r"%char :: "x"%char :: PyFormat.format_2f r)
    with (PyFormat.format_2f t ++ ["-"%char] ++ "r"%char :: "x"%char :: PyFormat.format_2f r) in H.
  change (PyFormat.format_2f t' ++ "-"%char :: "r"%char :: "x"%char :: PyFormat.format_2f r')
    with (PyFormat.format_2f t' ++ ["-"%char] ++ "r"%char :: "x"%char :: PyFormat.format_2f r') in H.
  rewrite !app_assoc in H.
  apply cut_at_first in H; [ | apply Hcut | apply Hcut].
  destruct H as (H1 & H2); apply app_inv_tail in H1; injection H2 as H2; auto.
Qed.

(** C4, as the script has it: two files of one run carry the same name
    exactly when they belong to the same topology and their ratios read the
    same once formatted with two decimals.  So the names of two combinations
    differ as soon as the topologies differ or a formatted ratio differs;
    a ratio given twice (or two ratios that round alike) gives one name. *)
Theorem names_differ args i j t r t' r' :
  0 <= i < count args -> 0 <= j < count args ->
  In (t, r) (product (tx_ratio args) (rx_ratio args)) ->
  In (t', r') (product (tx_ratio args) (rx_ratio args)) ->
  (output_file args i t r = output_file args j t' r' <->
   i = j /\
   PyFormat.format_2f t = PyFormat.format_2f t' /\
   PyFormat.format_2f r = PyFormat.format_2f r').
Proof.
  intros Hi Hj Hp Hp'; split.
  - unfold output_file; intros H; apply app_inv_tail in H.
    assert (Hone : negb (Nat.eqb (List.length (rx_ratio args)) 1)
                   || negb (Nat.eqb (List.length (tx_ratio args)) 1) = false ->
                   t = t' /\ r = r').
    { apply in_product in Hp, Hp'.
      destruct (tx_ratio args) as [ | t0 [ | t1 tx]];
        destruct (rx_ratio args) as [ | r0 [ | r1 rx]]; simpl; try discriminate.
      intros _; destruct Hp as ([<- | []] & [<- | []]), Hp' as ([<- | []] & [<- | []]).
      auto. }
    assert (Hratio :
              forall x : text,
                (if negb (Nat.eqb (List.length (rx_ratio args)) 1)
                    || negb (Nat.eqb (List.length (tx_ratio args)) 1)
                 then x ++ lit "-tx" ++ PyFormat.format_2f t
                        ++ lit "-rx" ++ PyFormat.format_2f r
                 else x) =
                (if negb (Nat.eqb (List.length (rx_ratio args)) 1)
                    || negb (Nat.eqb (List.length (tx_ratio args)) 1)
                 then x ++ lit "-tx" ++ PyFormat.format_2f t'
                        ++ lit "-rx" ++ PyFormat.format_2f r'
                 else x) ->
                PyFormat.format_2f t = PyFormat.format_2f t' /\
                PyFormat.format_2f r = PyFormat.format_2f r').
    { destruct (negb (Nat.eqb (List.length (rx_ratio args)) 1)
                || negb (Nat.eqb (List.length (tx_ratio args)) 1)).
      - intros x E; apply app_inv_head in E; apply ratio_suffix_inj; exact E.
      - intros _ _; destruct (Hone eq_refl) as (-> & ->); auto. }
    destruct (1 <? count args) eqn:C.
    + apply cut_at_last in H;
        [ | apply (not_in_digit _ _ dash_not_digit), format_05_digit; lia
          | apply (not_in_digit _ _ dash_not_digit), format_05_digit; lia ].
      destruct H as (H & Hidx); apply format_05_inj in Hidx; try lia.
      split; [lia | ].
      apply (Hratio (fst (PyPath.splitext (output args)))); exact H.
    + apply Z.ltb_ge in C; split; [lia | ].
      apply (Hratio (fst (PyPath.splitext (output args)))); exact H.
  - intros (-> & Ht & Hr); unfold output_file; rewrite Ht, Hr; reflexivity.
Qed.

Lemma names_differ_witness :
  output_file demo_args 0 0.5 1 = output_file demo_args 1 0.875 1 <->
  0 = 1 /\
  PyFormat.format_2f 0.5 = PyFormat.format_2f 0.875 /\
  PyFormat.format_2f 1 = PyFormat.format_2f 1.
Proof.
  apply (names_differ demo_args 0 1 0.5%float 1%float 0.875%float 1%float).
  - simpl; lia.
  - simpl; lia.
  - simpl; auto.
  - simpl; auto.
Defined.

(** C4 as stated fails: with the tx ratio 0.5 given twice, the two files of
    the topology get one name (the second save replaces the first). *)
Lemma duplicate_ratios_share_a_name :
  product (tx_ratio twice_args) (rx_ratio twice_args)
    = [(0.5%float, 1%float); (0.5%float, 1%float)] /\
  map file_name (snd (main 10 twice_args demo_sim demo_generator))
    = [lit "out/topo-tx0.50-rx1.00.csc"; lit "out/topo-tx0.50-rx1.00.csc"].
Proof.
  split; vm_compute; reflexivity.
Qed.

(** ** The seed of the simulation *)

Lemma batch_no_pairs fuel args k n :
  product (tx_ratio args) (rx_ratio args) = [] ->
  forall i c g saved, snd (batch fuel args k n i c g saved) = saved.
Proof.
  intros Hp; induction n as [ | n IH]; intros i c g saved; simpl; [reflexivity | ].
  destruct (reseed args i c g) as [c1 g1].
  destruct (place fuel k (get_motes c1) g1) as [[[[] | e | ] motes] g2]; try reflexivity.
  rewrite Hp; simpl; apply IH.
Qed.

(** Under the policy [f], file number [idx] among the files the batch adds
    carries the seed of its topology: the index of the first topology of the
    batch plus [idx] divided by the size of the cross product. *)
Lemma batch_fixed_seed fuel args k n :
  seed_policy args = Policy_f ->
  forall i c g saved idx a,
    (List.length saved <= idx)%nat ->
    nth_error (snd (batch fuel args k n i c g saved)) idx = Some a ->
    random_seed (content a) =
    Seed (i + Z.of_nat ((idx - List.length saved)
                        / (List.length (tx_ratio args) * List.length (rx_ratio args)))).
Proof.
  intros Hf; induction n as [ | n IH]; intros i c g saved idx a Hidx; simpl.
  - intros H; assert (nth_error saved idx <> None) by congruence.
    apply nth_error_Some in H0; lia.
  - unfold reseed; rewrite Hf.
    destruct (place fuel k (get_motes (set_seed c i)) g) as [[[[] | e | ] motes] g2];
      try (simpl; intros H; assert (H0 : nth_error saved idx <> None) by congruence;
           apply nth_error_Some in H0; lia).
    pose proof (sweep_saved args i (product (tx_ratio args) (rx_ratio args))
                  (set_motes (set_seed c i) motes) saved) as HS.
    destruct (sweep args i _ (set_motes (set_seed c i) motes) saved) as [c2 saved'].
    simpl in HS; intros H.
    set (np := (List.length (tx_ratio args) * List.length (rx_ratio args))%nat) in *.
    assert (Hlen : List.length saved' = (List.length saved + np)%nat).
    { rewrite HS, length_app, length_map, length_product; reflexivity. }
    destruct (Nat.lt_ge_cases idx (List.length saved')) as [Hlt | Hge].
    + destruct (batch_extends fuel args k n (i + 1) c2 g2 saved') as (new & Hnew).
      rewrite Hnew, nth_error_app1, HS, nth_error_app2, nth_error_map in H
        by (try exact Hlt; exact Hidx).
      destruct (nth_error _ (idx - List.length saved)) as [p | ]; [ | discriminate].
      injection H as <-; simpl.
      rewrite Nat.div_small by lia; f_equal; lia.
    + destruct (Nat.eq_dec np 0) as [Hz | Hnz].
      * unfold np in Hz; rewrite <- length_product in Hz.
        apply length_zero_iff_nil in Hz.
        rewrite (batch_no_pairs _ _ _ _ Hz) in H.
        assert (H0 : nth_error saved' idx <> None) by congruence.
        apply nth_error_Some in H0; lia.
      * rewrite (IH _ _ _ _ _ _ Hge H), Hlen.
        rewrite (div_sub_step np (idx - List.length saved)) by lia.
        f_equal; replace (idx - List.length saved - np)%nat
                   with (idx - (List.length saved + np))%nat by lia; lia.
Qed.

(** C5, as the script has it: under the policy [f] the seed given to the
    simulation for topology [i] is [i], counted from 0, so that file number
    [idx] of a run carries the seed [idx / (|tx| * |rx|)].  The seed is the
    seed of the simulation; the generator the placement draws from is not
    touched by it. *)
Theorem fixed_seed_is_iteration_index fuel args c g idx a :
  seed_policy args = Policy_f ->
  nth_error (snd (main fuel args c g)) idx = Some a ->
  random_seed (content a) =
  Seed (Z.of_nat (idx / (List.length (tx_ratio args) * List.length (rx_ratio args)))).
Proof.
  intros Hf; unfold main.
  destruct (configure args c) as [[[args' c'] k] | e | ] eqn:E; simpl;
    try (destruct idx; discriminate).
  apply configure_Ok in E; destruct E as (_ & _ & _ & -> & _ & _).
  intros H; apply batch_fixed_seed in H; [ | exact Hf | simpl; lia].
  simpl in H; rewrite !length_map, Nat.sub_0_r in H; exact H.
Qed.

Lemma fixed_seed_is_iteration_index_witness :
  random_seed (content demo_third_file) = Seed (Z.of_nat (2 / (2 * 1))).
Proof.
  apply (fixed_seed_is_iteration_index 10 demo_args demo_sim demo_generator 2 demo_third_file).
  - reflexivity.
  - vm_compute; reflexivity.
Defined.

(** C5 as stated fails: two runs of the same arguments on the same
    simulation under the policy [f] give the same seeds but place the motes
    differently when the generator of the [random] module starts in another
    state. *)
Lemma fixed_seed_placements_not_reproducible :
  seed_policy demo_args = Policy_f /\
  map (fun a => random_seed (content a)) (snd (main 10 demo_args demo_sim demo_generator))
    = map (fun a => random_seed (content a)) (snd (main 10 demo_args demo_sim other_generator)) /\
  map positions (snd (main 10 demo_args demo_sim demo_generator))
    <> map positions (snd (main 10 demo_args demo_sim other_generator)).
Proof.
  split; [reflexivity | split; [vm_compute; reflexivity | ]].
  intros H.
  apply (f_equal (fun l => match l with
                           | (_ :: p :: _) :: _ => (pos_y p <? 6)%float
                           | _ => false
                           end)) in H.
  vm_compute in H; discriminate H.
Qed.

(** ** The checks of the arguments *)

Lemma out_of_range_ends l : out_of_range l <> OutOfFuel.
Proof.
  unfold out_of_range; destruct l as [ | v l]; simpl; [discriminate | ].
  destruct (PyFloat.min_from v l <? 0)%float; discriminate.
Qed.

(** [--topology] is read only for the mode of the placement. *)
Lemma configure_topology args c t :
  configure (set_topology args t) c =
  match configure args c with
  | Ok (args', c', k) => Ok (set_topology args' t, c', set_mode k (mode_of t))
  | Raise e => Raise e
  | OutOfFuel => OutOfFuel
  end.
Proof.
  unfold configure; simpl.
  destruct (out_of_range (tx_ratio args)) as [[ | ] | e | ]; simpl; try reflexivity.
  destruct (out_of_range (rx_ratio args)) as [[ | ] | e | ]; simpl; try reflexivity.
  destruct ((0 <? min_distance args) && _); reflexivity.
Qed.

(** C10: a value of [--topology] that is not ['spread'] (none at all, a
    misspelling, anything else) selects the multihop mode, and it is never
    the cause of a rejection: the arguments are rejected with such a value
    only when they are rejected, in the same way, with ['spread']. *)
Theorem other_topology_values_promote_multihop args c t :
  t <> Some "spread"%string ->
  (forall args' c' k,
      configure (set_topology args t) c = Ok (args', c', k) ->
      promote_multihop k = true) /\
  (forall e,
      configure (set_topology args t) c = Raise e <->
      configure (set_topology args (Some "spread"%string)) c = Raise e) /\
  configure (set_topology args t) c <> OutOfFuel.
Proof.
  intros Ht; rewrite !configure_topology.
  assert (Hm : mode_of t = true).
  { destruct t as [t | ]; [ | reflexivity]; simpl.
    destruct (String.eqb t "spread") eqn:E; [ | reflexivity].
    apply String.eqb_eq in E; subst t; contradiction. }
  destruct (configure args c) as [[[args0 c0] k0] | e0 | ] eqn:E; cbv iota beta.
  - split; [ | split]; [ | | discriminate].
    + intros args' c' k H; injection H as _ _ <-; exact Hm.
    + intros e; split; discriminate.
  - split; [ | split]; [discriminate | tauto | discriminate].
  - exfalso; revert E; unfold configure.
    pose proof (out_of_range_ends (tx_ratio args)).
    pose proof (out_of_range_ends (rx_ratio args)).
    destruct (out_of_range (tx_ratio args)) as [[ | ] | e | ]; simpl; try discriminate;
      try contradiction.
    destruct (out_of_range (rx_ratio args)) as [[ | ] | e | ]; simpl; try discriminate;
      try contradiction.
    destruct ((0 <? min_distance args) && _); discriminate.
Qed.

Lemma other_topology_values_promote_multihop_witness :
  (forall args' c' k,
      configure (set_topology demo_args (Some "spred"%string)) demo_sim = Ok (args', c', k) ->
      promote_multihop k = true) /\
  (forall e,
      configure (set_topology demo_args (Some "spred"%string)) demo_sim = Raise e <->
      configure (set_topology demo_args (Some "spread"%string)) demo_sim = Raise e) /\
  configure (set_topology demo_args (Some "spred"%string)) demo_sim <> OutOfFuel.
Proof.
  apply (other_topology_values_promote_multihop demo_args demo_sim (Some "spred"%string)).
  discriminate.
Defined.

(** C7, as the script has it: a minimal distance that is above 0 and not
    below the transmitting range ends the script in [configure], before any
    topology and with no file saved; the exit is "Too large minimal
    distance" when the two ratio lists passed their own check, which comes
    first. *)
Theorem too_large_minimal_distance fuel args c g :
  0 < min_distance args ->
  PyFloat.int_ge (min_distance args) (get_tx_range c) = true ->
  exists e,
    configure args c = Raise e /\
    main fuel args c g = (Raise e, []) /\
    (out_of_range (tx_ratio args) = Ok false ->
     out_of_range (rx_ratio args) = Ok false ->
     e = SystemExit "Too large minimal distance").
Proof.
  intros HD HR; apply Z.ltb_lt in HD.
  assert (E : exists e, configure args c = Raise e /\
                        (out_of_range (tx_ratio args) = Ok false ->
                         out_of_range (rx_ratio args) = Ok false ->
                         e = SystemExit "Too large minimal distance")).
  { unfold configure.
    pose proof (out_of_range_ends (tx_ratio args)).
    pose proof (out_of_range_ends (rx_ratio args)).
    destruct (out_of_range (tx_ratio args)) as [[ | ] | e | ]; simpl;
      try contradiction; try (eexists; split; [reflexivity | discriminate]).
    destruct (out_of_range (rx_ratio args)) as [[ | ] | e | ]; simpl;
      try contradiction; try (eexists; split; [reflexivity | discriminate]).
    assert (HR' : get_tx_range
                    match seed_policy args with Policy_g => set_generated c | _ => c end
                  = get_tx_range c) by (destruct (seed_policy args); reflexivity).
    rewrite HR', HD, HR; simpl; eexists; split; reflexivity. }
  destruct E as (e & E & Hmsg); exists e; split; [exact E | split; [ | exact Hmsg]].
  unfold main; rewrite E; reflexivity.
Qed.

Lemma too_large_minimal_distance_witness :
  exists e,
    configure (set_ratio_lists demo_args [1%float] [1%float])
              (set_success_ratios zero_range_sim 1 1) = Raise e /\
    main 10 (set_ratio_lists demo_args [1%float] [1%float])
         (set_success_ratios zero_range_sim 1 1) demo_generator = (Raise e, []) /\
    (out_of_range [1%float] = Ok false -> out_of_range [1%float] = Ok false ->
     e = SystemExit "Too large minimal distance").
Proof.
  apply (too_large_minimal_distance 10 (set_ratio_lists demo_args [1%float] [1%float])
           (set_success_ratios zero_range_sim 1 1) demo_generator).
  - simpl; lia.
  - vm_compute; reflexivity.
Defined.

(** C7 as stated fails: with the minimal distance left at 0 and a
    transmitting range of 0, the distance is not below the range, and the
    script goes on and saves a file. *)
Lemma zero_minimal_distance_is_not_checked :
  PyFloat.int_ge (min_distance default_args) (get_tx_range zero_range_sim) = true /\
  PyFloat.int_lt (min_distance default_args) (get_tx_range zero_range_sim) = false /\
  fst (main 10 default_args zero_range_sim demo_generator) = Ok tt /\
  map file_name (snd (main 10 default_args zero_range_sim demo_generator))
    = [lit "out/topo.csc"].
Proof.
  repeat split; vm_compute; reflexivity.
Qed.

(** C6 fails on the script: [min] and [max] return a leading NaN, which
    compares with nothing, so [--tx-ratio nan 5] passes the check and the
    ratios NaN and 5 are applied and saved. *)
Theorem nan_hides_out_of_range_ratio :
  out_of_range (tx_ratio nan_args) = Ok false /\
  (1 <? 5)%float = true /\
  fst (main 10 nan_args demo_sim demo_generator) = Ok tt /\
  map applied_tx (snd (main 10 nan_args demo_sim demo_generator)) = [nan; 5%float] /\
  map file_name (snd (main 10 nan_args demo_sim demo_generator))
    = [lit "out/topo-txnan-rx1.00.csc"; lit "out/topo-tx5.00-rx1.00.csc"].
Proof.
  repeat split; vm_compute; reflexivity.
Qed.

(** ** IEEE arithmetic: which results are NaN, which are finite *)

Lemma iter_pos_keeps {A : Type} (P : A -> Prop) (f : A -> A) :
  (forall a, P a -> P (f a)) -> forall p a, P a -> P (iter_pos f p a).
Proof.
  intros Hf; induction p as [p IH | p IH | ]; intros a Ha; simpl; auto.
Qed.

Lemma shr_1_nonneg mrs : 0 <= shr_m mrs -> 0 <= shr_m (shr_1 mrs).
Proof.
  destruct mrs as [m r s]; simpl.
  destruct m as [ | [p | p | ] | [p | p | ]]; simpl; lia.
Qed.

Lemma shr_fexp_nonneg prec emax m e l :
  0 <= m -> 0 <= shr_m (fst (shr_fexp prec emax m e l)).
Proof.
  intros Hm; unfold shr_fexp, shr.
  assert (H0 : 0 <= shr_m (shr_record_of_loc m l)).
  { destruct l as [ | [ | | ]]; exact Hm. }
  destruct (fexp prec emax (Zdigits2 m + e) - e); simpl; try exact H0.
  apply (iter_pos_keeps (fun r => 0 <= shr_m r)); [exact shr_1_nonneg | exact H0].
Qed.

Lemma round_nearest_even_nonneg m l : 0 <= m -> 0 <= round_nearest_even m l.
Proof.
  intros Hm; destruct l as [ | [ | | ]]; simpl; try lia.
  destruct (Z.even m); lia.
Qed.

Lemma binary_round_aux_signed prec emax sx mx ex lx :
  0 <= mx -> signed sx (binary_round_aux prec emax sx mx ex lx).
Proof.
  intros Hm; unfold binary_round_aux.
  pose proof (shr_fexp_nonneg prec emax mx ex lx Hm) as H1.
  destruct (shr_fexp prec emax mx ex lx) as [mrs' e']; simpl in H1.
  pose proof (shr_fexp_nonneg prec emax
                (round_nearest_even (shr_m mrs') (loc_of_shr_record mrs')) e' loc_Exact
                (round_nearest_even_nonneg _ _ H1)) as H2.
  destruct (shr_fexp prec emax _ e' loc_Exact) as [mrs'' e'']; simpl in H2.
  destruct (shr_m mrs'') as [ | m | m]; simpl; try reflexivity; try lia.
  destruct (e'' <=? emax - prec); reflexivity.
Qed.

Lemma binary_normalize_not_nan prec emax m e sz :
  binary_normalize prec emax m e sz <> S754_nan.
Proof.
  destruct m as [ | m | m]; simpl; [discriminate | | ];
    unfold binary_round;
    destruct (shl_align m e _) as [mz ez];
    match goal with
    | |- binary_round_aux _ _ ?s ?mx ?e ?l <> _ =>
        pose proof (binary_round_aux_signed prec emax s mx e l) as H
    end;
    intros E; rewrite E in H; apply H; lia.
Qed.

Lemma signed_not_nan s f : signed s f -> f <> S754_nan.
Proof. destruct f; simpl; intros H; try discriminate; contradiction. Qed.







Lemma SFsub_not_nan prec emax a b :
  fin a = true -> fin b = true -> SFsub prec emax a b <> S754_nan.
Proof.
  destruct a as [s | s | | s m e], b as [s' | s' | | s' m' e'];
    simpl; intros Ha Hb; try discriminate.
  - destruct s, s'; discriminate.
  - apply binary_normalize_not_nan.
Qed.

Lemma SFabs_signed a : a <> S754_nan -> signed false (SFabs a).
Proof. destruct a; simpl; intros H; auto; contradiction. Qed.

Lemma SFmul_self_signed prec emax a :
  signed false a -> signed false (SFmul prec emax a a).
Proof.
  destruct a as [s | s | | s m e]; simpl; intros H; subst; auto.
  apply binary_round_aux_signed; lia.
Qed.

Lemma SFadd_signed prec emax a b :
  signed false a -> signed false b -> signed false (SFadd prec emax a b).
Proof.
  destruct a as [s | s | | s m e], b as [s' | s' | | s' m' e'];
    simpl; intros Ha Hb; subst; simpl; auto.
  unfold binary_normalize, cond_Zopp.
  destruct (shl_align m e (Z.min e e')) as [m1 e1], (shl_align m' e' (Z.min e e')) as [m2 e2].
  simpl; unfold binary_round.
  destruct (shl_align _ _ _) as [mz ez]; apply binary_round_aux_signed; lia.
Qed.

Lemma SFsqrt_not_nan prec emax a : signed false a -> SFsqrt prec emax a <> S754_nan.
Proof.
  destruct a as [s | s | | s m e]; simpl; intros H; subst; try discriminate; auto.
  unfold SFsqrt_core_binary.
  set (m' := match _ - _ with Z0 => Z.pos m | Zpos _ => _ | Zneg _ => 0 end).
  assert (Hq : 0 <= fst (Z.sqrtrem m')).
  { destruct m' as [ | p | p]; simpl; try lia.
    destruct (Pos.sqrtrem p) as [q [ | r | ]]; simpl; lia. }
  destruct (Z.sqrtrem m') as [q r]; simpl in Hq.
  apply (signed_not_nan false), binary_round_aux_signed; exact Hq.
Qed.

(** ** The distance between finite positions *)

Lemma pow2_Ok v r : PyFloat.pow2 v = Ok r -> r = (v * v)%float.
Proof.
  unfold PyFloat.pow2; destruct (PyFloat.isinf (v * v) && _); congruence.
Qed.

Lemma math_sqrt_Ok s d : PyFloat.math_sqrt s = Ok d -> d = sqrt s.
Proof.
  unfold PyFloat.math_sqrt; destruct (PyFloat.isnan (sqrt s) && _); congruence.
Qed.

Lemma get_distance_Ok p x y d :
  get_distance p x y = Ok d ->
  d = sqrt (abs (x - pos_x (position p)) * abs (x - pos_x (position p))
            + abs (y - pos_y (position p)) * abs (y - pos_y (position p)))%float.
Proof.
  unfold get_distance; intros H.
  apply bind_Ok in H; destruct H as (dx2 & Hx & H).
  apply bind_Ok in H; destruct H as (dy2 & Hy & H).
  apply pow2_Ok in Hx; apply pow2_Ok in Hy; apply math_sqrt_Ok in H; congruence.
Qed.

Lemma isfinite_fin f : PyFloat.isfinite f = fin (Prim2SF f).
Proof. reflexivity. Qed.


(** The distance between finite positions is not a NaN. *)
Lemma distance_not_nan p x y d :
  PyFloat.isfinite x = true -> PyFloat.isfinite y = true -> finite_mote p ->
  get_distance p x y = Ok d -> PyFloat.isnan d = false.
Proof.
  intros Hx Hy (Hpx & Hpy) Hd; apply get_distance_Ok in Hd; subst d.
  rewrite isfinite_fin in Hx, Hy, Hpx, Hpy.
  assert (Hsq : forall a b, fin (Prim2SF a) = true -> fin (Prim2SF b) = true ->
                  signed false (Prim2SF (abs (a - b) * abs (a - b))%float)).
  { intros a b Ha Hb; rewrite mul_spec; apply SFmul_self_signed.
    rewrite abs_spec; apply SFabs_signed; rewrite sub_spec.
    apply SFsub_not_nan; assumption. }
  unfold PyFloat.isnan.
  pose proof (SFsqrt_not_nan prec emax _
                (SFadd_signed prec emax _ _ (Hsq _ _ Hx Hpx) (Hsq _ _ Hy Hpy))) as H.
  rewrite sqrt_spec, add_spec.
  fold SF64add in H |- *; fold SF64sqrt in H |- *.
  destruct (SF64sqrt _); try reflexivity; contradiction.
Qed.


(** ** Separation *)




(** ** The ratios that are applied *)

Lemma batch_saved_in fuel args k n :
  forall i c g saved a,
    In a (snd (batch fuel args k n i c g saved)) ->
    In a saved \/
    exists j c' p, In p (product (tx_ratio args) (rx_ratio args)) /\ a = snapshot args j c' p.
Proof.
  induction n as [ | n IH]; intros i c g saved a; simpl; [tauto | ].
  destruct (reseed args i c g) as [c1 g1].
  destruct (place fuel k (get_motes c1) g1) as [[[[] | e | ] motes] g2]; simpl; try tauto.
  pose proof (sweep_saved args i (product (tx_ratio args) (rx_ratio args))
                (set_motes c1 motes) saved) as HS.
  destruct (sweep args i _ (set_motes c1 motes) saved) as [c2 saved'].
  simpl in HS; intros H; apply IH in H; destruct H as [H | H]; [ | right; exact H].
  rewrite HS in H; apply in_app_or in H; destruct H as [H | H]; [left; exact H | right].
  apply in_map_iff in H; destruct H as (p & <- & Hp).
  exists i, (set_motes c1 motes), p; auto.
Qed.

(** Every file of a run is saved with a tx ratio and an rx ratio that are
    ratios of the command line rounded to two decimals. *)
Lemma saved_ratios_are_rounded fuel args c g a :
  In a (snd (main fuel args c g)) ->
  exists t r,
    In t (tx_ratio args) /\ In r (rx_ratio args) /\
    success_ratio_tx (radio_medium (content a)) = PyFormat.round2 t /\
    success_ratio_rx (radio_medium (content a)) = PyFormat.round2 r.
Proof.
  unfold main; destruct (configure args c) as [[[args' c'] k] | e | ] eqn:E;
    simpl; try tauto.
  apply configure_Ok in E; destruct E as (_ & _ & _ & -> & _ & _).
  intros H; apply batch_saved_in in H; destruct H as [[] | (j & c1 & [t r] & Hp & ->)].
  simpl in Hp; apply in_product in Hp; destruct Hp as (Ht & Hr).
  apply in_map_iff in Ht, Hr; destruct Ht as (t0 & <- & Ht), Hr as (r0 & <- & Hr).
  exists t0, r0; simpl; auto.
Qed.

(** ** The fuel of the model

    A result that was reached with some fuel is the result with any larger
    fuel: the fuel bounds the runs the model can follow, not what they do. *)

Lemma sample_fuel_mono fuel :
  forall fuel' k sx sy motes g r g',
    (fuel <= fuel')%nat ->
    sample fuel k sx sy motes g = (r, g') -> r <> OutOfFuel ->
    sample fuel' k sx sy motes g = (r, g').
Proof.
  induction fuel as [ | fuel IH]; intros fuel' k sx sy motes g r g' Hle; simpl.
  - intros H; injection H as <- _; contradiction.
  - destruct fuel' as [ | fuel']; [lia | ]; simpl.
    destruct (draw_candidate k sx sy g) as [[x y] g1].
    destruct (try_candidate k motes x y) as [[ | ] | e | ]; try tauto.
    apply IH; lia.
Qed.

Lemma place_rest_fuel_mono fuel fuel' k sx sy todo :
  (fuel <= fuel')%nat ->
  forall motes g,
    outcome (place_rest fuel k sx sy motes todo g) <> OutOfFuel ->
    place_rest fuel' k sx sy motes todo g = place_rest fuel k sx sy motes todo g.
Proof.
  intros Hle; induction todo as [ | m todo IH]; intros motes g; simpl; [reflexivity | ].
  destruct (sample fuel k sx sy motes g) as [s g1] eqn:S.
  destruct s as [[x y] | e | ].
  - rewrite (sample_fuel_mono _ _ _ _ _ _ _ _ _ Hle S) by discriminate; apply IH.
  - rewrite (sample_fuel_mono _ _ _ _ _ _ _ _ _ Hle S) by discriminate; reflexivity.
  - simpl; contradiction.
Qed.

Lemma place_fuel_mono fuel fuel' k all g :
  (fuel <= fuel')%nat ->
  outcome (place fuel k all g) <> OutOfFuel ->
  place fuel' k all g = place fuel k all g.
Proof.
  intros Hle; destruct all as [ | m todo]; simpl; [reflexivity | ].
  apply place_rest_fuel_mono; exact Hle.
Qed.

Lemma batch_fuel_mono fuel fuel' args k n :
  (fuel <= fuel')%nat ->
  forall i c g saved,
    fst (batch fuel args k n i c g saved) <> OutOfFuel ->
    batch fuel' args k n i c g saved = batch fuel args k n i c g saved.
Proof.
  intros Hle; induction n as [ | n IH]; intros i c g saved; simpl; [reflexivity | ].
  destruct (reseed args i c g) as [c1 g1].
  destruct (place fuel k (get_motes c1) g1) as [[r motes] g2] eqn:P.
  assert (HP : r <> OutOfFuel -> place fuel' k (get_motes c1) g1 = (r, motes, g2)).
  { intros Hr; rewrite (place_fuel_mono _ _ _ _ _ Hle); [exact P | ].
    rewrite P; exact Hr. }
  destruct r as [[] | e | ].
  - rewrite HP by discriminate.
    destruct (sweep args i _ (set_motes c1 motes) saved) as [c2 saved']; apply IH.
  - rewrite HP by discriminate; reflexivity.
  - simpl; contradiction.
Qed.

Lemma main_fuel_mono fuel fuel' args c g :
  (fuel <= fuel')%nat ->
  fst (main fuel args c g) <> OutOfFuel ->
  main fuel' args c g = main fuel args c g.
Proof.
  intros Hle; unfold main.
  destruct (configure args c) as [[[args' c'] k] | e | ]; try reflexivity.
  apply batch_fuel_mono; exact Hle.
Qed.

(** ** The small scenario, run *)

Example demo_placement :
  place 10 demo_constraints demo_motes demo_generator
  = (Ok tt, demo_placed, snd (place 10 demo_constraints demo_motes demo_generator)).
Proof. vm_compute; reflexivity. Qed.

Example demo_run :
  fst (main 10 demo_args demo_sim demo_generator) = Ok tt /\
  map file_name (snd (main 10 demo_args demo_sim demo_generator))
  = [ lit "out/topo-tx0.50-rx1.00-00001.csc"; lit "out/topo-tx0.88-rx1.00-00001.csc";
      lit "out/topo-tx0.50-rx1.00-00002.csc"; lit "out/topo-tx0.88-rx1.00-00002.csc" ].
Proof. split; vm_compute; reflexivity. Qed.

Example demo_overflow :
  get_distance {| mote_id := 1; position := {| pos_x := 0; pos_y := 0 |} |}
               0x1p+600 0 = Raise OverflowError.
Proof. vm_compute; reflexivity. Qed.

(** * More of the script

    What follows covers the script beyond the statements above: the
    arithmetic of [get_distance], the check of the ratios, and what the files
    of a whole run hold. *)

(** ** The order of the floats *)

Lemma SFltb_rank a b :
  a <> S754_nan -> b <> S754_nan ->
  (SFltb a b = true <-> rank_lt (rank a) (rank b)).
Proof.
  intros Ha Hb; unfold SFltb.
  destruct a as [s | [ | ] | | [ | ] m e]; try contradiction;
    destruct b as [s' | [ | ] | | [ | ] m' e']; try contradiction;
    simpl; try (split; [discriminate | lia]); try (split; [reflexivity | lia]);
    try (split; [intros _; lia | reflexivity]).
  - destruct (Z.compare_spec e e') as [E | E | E].
    + subst e'; change (Pos.compare_cont Eq m m') with (Pos.compare m m').
      destruct (Pos.compare_spec m m') as [M | M | M]; simpl;
        (split; [try discriminate; intros _ | try reflexivity]); lia.
    + split; [discriminate | lia].
    + split; [intros _ | reflexivity]; lia.
  - destruct (Z.compare_spec e e') as [E | E | E].
    + subst e'; change (Pos.compare_cont Eq m m') with (Pos.compare m m').
      destruct (Pos.compare_spec m m') as [M | M | M]; simpl;
        (split; [try discriminate; intros _ | try reflexivity]); lia.
    + split; [intros _ | reflexivity]; lia.
    + split; [discriminate | lia].
Qed.

Lemma SFleb_rank a b :
  a <> S754_nan -> b <> S754_nan ->
  (SFleb a b = true <-> rank_le (rank a) (rank b)).
Proof.
  intros Ha Hb; unfold SFleb.
  destruct a as [s | [ | ] | | [ | ] m e]; try contradiction;
    destruct b as [s' | [ | ] | | [ | ] m' e']; try contradiction;
    simpl; try (split; [discriminate | lia]); try (split; [reflexivity | lia]);
    try (split; [intros _; lia | reflexivity]).
  - destruct (Z.compare_spec e e') as [E | E | E].
    + subst e'; change (Pos.compare_cont Eq m m') with (Pos.compare m m').
      destruct (Pos.compare_spec m m') as [M | M | M]; simpl;
        (split; [try discriminate; intros _ | try reflexivity]); lia.
    + split; [discriminate | lia].
    + split; [intros _ | reflexivity]; lia.
  - destruct (Z.compare_spec e e') as [E | E | E].
    + subst e'; change (Pos.compare_cont Eq m m') with (Pos.compare m m').
      destruct (Pos.compare_spec m m') as [M | M | M]; simpl;
        (split; [try discriminate; intros _ | try reflexivity]); lia.
    + split; [intros _ | reflexivity]; lia.
    + split; [discriminate | lia].
Qed.

Lemma isnan_false f : PyFloat.isnan f = false -> Prim2SF f <> S754_nan.
Proof. unfold PyFloat.isnan; intros H E; rewrite E in H; discriminate. Qed.

Lemma ltb_rank a b :
  PyFloat.isnan a = false -> PyFloat.isnan b = false ->
  ((a <? b)%float = true <-> rank_lt (rank (Prim2SF a)) (rank (Prim2SF b))).
Proof.
  intros Ha Hb; rewrite ltb_spec; apply SFltb_rank; apply isnan_false; assumption.
Qed.

Lemma leb_rank a b :
  PyFloat.isnan a = false -> PyFloat.isnan b = false ->
  ((a <=? b)%float = true <-> rank_le (rank (Prim2SF a)) (rank (Prim2SF b))).
Proof.
  intros Ha Hb; rewrite leb_spec; apply SFleb_rank; apply isnan_false; assumption.
Qed.

Lemma rank_le_not_lt r s : rank_le s r <-> ~ rank_lt r s.
Proof.
  destruct r as [[r1 r2] r3], s as [[s1 s2] s3]; unfold rank_le, rank_lt; lia.
Qed.

Lemma ltb_false_rank a b :
  PyFloat.isnan a = false -> PyFloat.isnan b = false ->
  ((a <? b)%float = false <-> rank_le (rank (Prim2SF b)) (rank (Prim2SF a))).
Proof.
  intros Ha Hb; rewrite rank_le_not_lt, <- (ltb_rank a b Ha Hb).
  destruct (a <? b)%float; split; intros H; try reflexivity; try discriminate.
  exfalso; apply H; reflexivity.
Qed.

Lemma rank_le_trans r s t : rank_le r s -> rank_le s t -> rank_le r t.
Proof.
  destruct r as [[r1 r2] r3], s as [[s1 s2] s3], t as [[t1 t2] t3];
    unfold rank_le; lia.
Qed.

Lemma rank_le_refl r : rank_le r r.
Proof. destruct r as [[r1 r2] r3]; unfold rank_le; lia. Qed.

(** [min] and [max] on lists without a NaN. *)
Lemma min_from_spec l : forall cur,
  PyFloat.isnan cur = false -> Forall (fun v => PyFloat.isnan v = false) l ->
  In (PyFloat.min_from cur l) (cur :: l) /\
  forall v, In v (cur :: l) ->
    rank_le (rank (Prim2SF (PyFloat.min_from cur l))) (rank (Prim2SF v)).
Proof.
  induction l as [ | w l IH]; intros cur Hc Hl; simpl.
  - split; [auto | intros v [<- | []]; apply rank_le_refl].
  - inversion Hl as [ | ? ? Hw Hl']; subst.
    assert (Hn : PyFloat.isnan (if (w <? cur)%float then w else cur) = false)
      by (destruct (w <? cur)%float; assumption).
    destruct (IH _ Hn Hl') as (Hin & Hle); split.
    + destruct Hin as [E | Hin]; [ | auto].
      rewrite <- E; destruct (w <? cur)%float; auto.
    + assert (Hcur : rank_le (rank (Prim2SF (if (w <? cur)%float then w else cur)))
                             (rank (Prim2SF cur)) /\
                     rank_le (rank (Prim2SF (if (w <? cur)%float then w else cur)))
                             (rank (Prim2SF w))).
      { destruct (w <? cur)%float eqn:L.
        - split; [ | apply rank_le_refl].
          apply (ltb_rank w cur Hw Hc) in L.
          destruct (rank (Prim2SF w)) as [[a1 a2] a3], (rank (Prim2SF cur)) as [[b1 b2] b3].
          unfold rank_lt, rank_le in *; lia.
        - split; [apply rank_le_refl | ].
          apply (ltb_false_rank w cur Hw Hc) in L; exact L. }
      intros v [<- | [<- | Hv]].
      * eapply rank_le_trans; [apply Hle; left; reflexivity | apply Hcur].
      * eapply rank_le_trans; [apply Hle; left; reflexivity | apply Hcur].
      * apply Hle; right; exact Hv.
Qed.

Lemma max_from_spec l : forall cur,
  PyFloat.isnan cur = false -> Forall (fun v => PyFloat.isnan v = false) l ->
  In (PyFloat.max_from cur l) (cur :: l) /\
  forall v, In v (cur :: l) ->
    rank_le (rank (Prim2SF v)) (rank (Prim2SF (PyFloat.max_from cur l))).
Proof.
  induction l as [ | w l IH]; intros cur Hc Hl; simpl.
  - split; [auto | intros v [<- | []]; apply rank_le_refl].
  - inversion Hl as [ | ? ? Hw Hl']; subst.
    assert (Hn : PyFloat.isnan (if (cur <? w)%float then w else cur) = false)
      by (destruct (cur <? w)%float; assumption).
    destruct (IH _ Hn Hl') as (Hin & Hle); split.
    + destruct Hin as [E | Hin]; [ | auto].
      rewrite <- E; destruct (cur <? w)%float; auto.
    + assert (Hcur : rank_le (rank (Prim2SF cur))
                             (rank (Prim2SF (if (cur <? w)%float then w else cur))) /\
                     rank_le (rank (Prim2SF w))
                             (rank (Prim2SF (if (cur <? w)%float then w else cur)))).
      { destruct (cur <? w)%float eqn:L.
        - split; [ | apply rank_le_refl].
          apply (ltb_rank cur w Hc Hw) in L.
          destruct (rank (Prim2SF w)) as [[a1 a2] a3], (rank (Prim2SF cur)) as [[b1 b2] b3].
          unfold rank_lt, rank_le in *; lia.
        - split; [apply rank_le_refl | ].
          apply (ltb_false_rank cur w Hc Hw) in L; exact L. }
      intros v [<- | [<- | Hv]].
      * eapply rank_le_trans; [apply Hcur | apply Hle; left; reflexivity].
      * eapply rank_le_trans; [apply Hcur | apply Hle; left; reflexivity].
      * apply Hle; right; exact Hv.
Qed.

Lemma forallb_false {A : Type} (f : A -> bool) (l : list A) (x : A) :
  In x l -> f x = false -> forallb f l = false.
Proof.
  intros Hx Hf; destruct (forallb f l) eqn:E; [ | reflexivity].
  rewrite forallb_forall in E; rewrite (E x Hx) in Hf; discriminate.
Qed.

Lemma out_of_range_no_nan l :
  l <> [] -> no_nan l -> out_of_range l = Ok (negb (forallb is_ratio l)).
Proof.
  intros Hne Hnan; destruct l as [ | v l]; [contradiction | clear Hne].
  inversion Hnan as [ | ? ? Hv Hl]; subst.
  destruct (min_from_spec l v Hv Hl) as (Hlo & Hmin).
  destruct (max_from_spec l v Hv Hl) as (Hhi & Hmax).
  assert (Hin : forall w, In w (v :: l) -> PyFloat.isnan w = false).
  { intros w Hw; unfold no_nan in Hnan; rewrite Forall_forall in Hnan; auto. }
  pose proof (Hin _ Hlo) as Nlo; pose proof (Hin _ Hhi) as Nhi.
  unfold out_of_range; simpl PyFloat.min; simpl PyFloat.max; simpl bind.
  destruct (PyFloat.min_from v l <? 0)%float eqn:L.
  - f_equal; symmetry; apply negb_true_iff, (forallb_false _ _ _ Hlo).
    unfold is_ratio; apply andb_false_iff; left.
    apply (ltb_rank _ 0%float Nlo eq_refl) in L.
    destruct (0 <=? PyFloat.min_from v l)%float eqn:E; [ | reflexivity].
    apply (leb_rank 0%float _ eq_refl Nlo) in E.
    apply rank_le_not_lt in E; contradiction.
  - apply (ltb_false_rank _ 0%float Nlo eq_refl) in L.
    destruct (1 <? PyFloat.max_from v l)%float eqn:H.
    + f_equal; symmetry; apply negb_true_iff, (forallb_false _ _ _ Hhi).
      unfold is_ratio; apply andb_false_iff; right.
      apply (ltb_rank 1%float _ eq_refl Nhi) in H.
      destruct (PyFloat.max_from v l <=? 1)%float eqn:E; [ | reflexivity].
      apply (leb_rank _ 1%float Nhi eq_refl) in E.
      apply rank_le_not_lt in E; contradiction.
    + apply (ltb_false_rank 1%float _ eq_refl Nhi) in H.
      f_equal; symmetry; apply negb_false_iff, forallb_forall; intros w Hw.
      unfold is_ratio; apply andb_true_iff; split.
      * apply (leb_rank 0%float w eq_refl (Hin w Hw)).
        eapply rank_le_trans; [exact L | apply Hmin; exact Hw].
      * apply (leb_rank w 1%float (Hin w Hw) eq_refl).
        eapply rank_le_trans; [apply Hmax; exact Hw | exact H].
Qed.

(** ** Rounding a ratio *)

Lemma digits2_pos_bound m : Zpos m < 2 ^ Zpos (digits2_pos m).
Proof.
  induction m as [m IH | m IH | ]; simpl digits2_pos;
    rewrite ?Pos2Z.inj_succ, ?Z.pow_succ_r by lia; lia.
Qed.

Lemma valid_mantissa_bound s m e :
  valid_binary (S754_finite s m e) = true -> Zpos m < 2 ^ 53.
Proof.
  unfold SpecFloat.valid_binary, bounded, canonical_mantissa, fexp; intros H.
  apply andb_true_iff in H; destruct H as (H & _); apply Z.eqb_eq in H.
  change prec with 53 in H.
  pose proof (digits2_pos_bound m) as Hm.
  apply Z.lt_le_trans with (1 := Hm), Z.pow_le_mono_r; lia.
Qed.

Lemma div_half_even_bound a b n :
  0 <= a -> 0 < b -> 0 <= n -> a <= n * b ->
  0 <= PyFormat.div_half_even a b <= n.
Proof.
  intros Ha Hb Hn Hab; unfold PyFormat.div_half_even.
  assert (Hq : 0 <= a / b <= n).
  { split; [apply Z.div_pos; lia | apply Z.div_le_upper_bound; lia]. }
  pose proof (Z.mod_pos_bound a b Hb) as Hr.
  pose proof (Z.div_mod a b ltac:(lia)) as Hd.
  destruct (Z.eq_dec (a / b) n) as [E | E].
  - assert (a mod b = 0) by nia.
    replace (2 * (a mod b) ?= b) with Lt by (symmetry; apply Z.compare_lt_iff; lia).
    lia.
  - destruct (2 * (a mod b) ?= b); [destruct (Z.even (a / b)) | | ]; lia.
Qed.

Lemma round_table :
  forallb (fun n => is_ratio (SF2Prim (SFdiv prec emax (S754_finite false (Pos.of_nat n) 0)
                                        (S754_finite false 100 0))))
          (seq 1 100) = true.
Proof. vm_compute; reflexivity. Qed.

Lemma ratio_mantissa_bound m e :
  valid_binary (S754_finite false m e) = true ->
  SFleb (S754_finite false m e) (S754_finite false 4503599627370496 (-52)) = true ->
  e < 0 /\ Zpos m <= 2 ^ (- e).
Proof.
  intros Hv Hhi; apply valid_mantissa_bound in Hv.
  apply SFleb_rank in Hhi; [ | discriminate | discriminate].
  unfold rank, rank_le in Hhi.
  destruct Hhi as [Hhi | (_ & [He | (He & Hm)])].
  - exfalso; apply (Z.lt_irrefl _ Hhi).
  - split; [apply Z.lt_trans with (1 := He); reflexivity | ].
    apply Z.lt_le_incl, Z.lt_le_trans with (1 := Hv), Z.pow_le_mono_r.
    + reflexivity.
    + clear Hv; lia.
  - subst e; split; [reflexivity | exact Hm].
Qed.

Lemma round2_keeps_ratios x : is_ratio x = true -> is_ratio (PyFormat.round2 x) = true.
Proof.
  intros H; pose proof H as H0; unfold is_ratio in H0.
  apply andb_true_iff in H0; destruct H0 as (Hlo & Hhi).
  rewrite leb_spec in Hlo, Hhi.
  pose proof (Prim2SF_valid x) as Hv.
  unfold PyFormat.round2.
  change (Prim2SF 0) with (S754_zero false) in Hlo.
  change (Prim2SF 1) with (S754_finite false 4503599627370496 (-52)) in Hhi.
  destruct (Prim2SF x) as [s | s | | s m e] eqn:E; try exact H.
  assert (s = false) by (destruct s; [discriminate Hlo | reflexivity]); subst s.
  destruct (ratio_mantissa_bound m e Hv Hhi) as (He & Hm).
  assert (Hn : 0 <= PyFormat.hundredths m e <= 100).
  { unfold PyFormat.hundredths.
    replace (0 <=? e) with false by (symmetry; apply Z.leb_gt; exact He).
    assert (0 < 2 ^ (- e)) by (apply Z.pow_pos_nonneg; lia).
    apply div_half_even_bound; lia. }
  clear Hv Hhi Hlo Hm E H.
  destruct (PyFormat.hundredths m e) as [ | n | n].
  - vm_compute; reflexivity.
  - pose proof round_table as T; rewrite forallb_forall in T.
    specialize (T (Pos.to_nat n)); rewrite Pos2Nat.id in T by lia.
    apply T, in_seq; lia.
  - lia.
Qed.

(** ** The arithmetic of the distance *)

Lemma SFabs_binary_round_aux prec emax s s' mx ex lx :
  SFabs (binary_round_aux prec emax s mx ex lx) = SFabs (binary_round_aux prec emax s' mx ex lx).
Proof.
  unfold binary_round_aux.
  destruct (shr_fexp prec emax mx ex lx) as [mrs' e'].
  destruct (shr_fexp prec emax _ e' loc_Exact) as [mrs'' e''].
  destruct (shr_m mrs'') as [ | m | m]; simpl; try reflexivity.
  destruct (e'' <=? emax - prec); reflexivity.
Qed.

Lemma SFabs_binary_normalize_opp prec emax z e :
  SFabs (binary_normalize prec emax (- z) e false) = SFabs (binary_normalize prec emax z e false).
Proof.
  destruct z as [ | m | m]; simpl; try reflexivity; unfold binary_round;
    destruct (shl_align m e _) as [mz ez]; apply SFabs_binary_round_aux.
Qed.

Lemma SFabs_sub_comm prec emax a b :
  SFabs (SFsub prec emax a b) = SFabs (SFsub prec emax b a).
Proof.
  destruct a as [s | s | | s m e], b as [s' | s' | | s' m' e']; simpl;
    try reflexivity; try (destruct s, s'; reflexivity).
  rewrite (Z.min_comm e' e), <- SFabs_binary_normalize_opp; f_equal; f_equal.
  lia.
Qed.

Lemma abs_sub_comm (a b : float) : abs (a - b) = abs (b - a).
Proof.
  apply Prim2SF_inj; rewrite !abs_spec, !sub_spec; apply SFabs_sub_comm.
Qed.

Lemma SFsqrt_signed prec emax a : signed false a -> signed false (SFsqrt prec emax a).
Proof.
  destruct a as [s | s | | s m e]; simpl; intros H; subst; simpl; auto.
  unfold SFsqrt_core_binary.
  set (m' := match _ - _ with Z0 => Z.pos m | Zpos _ => _ | Zneg _ => 0 end).
  assert (Hq : 0 <= fst (Z.sqrtrem m')).
  { destruct m' as [ | p | p]; simpl; try lia.
    destruct (Pos.sqrtrem p) as [q [ | r | ]]; simpl; lia. }
  destruct (Z.sqrtrem m') as [q r]; simpl in Hq.
  apply binary_round_aux_signed; exact Hq.
Qed.

Lemma signed_leb_zero d : signed false (Prim2SF d) -> (0 <=? d)%float = true.
Proof.
  rewrite leb_spec; change (Prim2SF 0) with (S754_zero false).
  destruct (Prim2SF d) as [s | s | | s m e]; simpl; intros H; subst;
    try reflexivity; contradiction.
Qed.

Lemma square_class v :
  Prim2SF (abs v * abs v) = S754_nan \/ signed false (Prim2SF (abs v * abs v)).
Proof.
  rewrite mul_spec, abs_spec.
  destruct (Prim2SF v) as [s | s | | s m e]; simpl; auto.
  right; apply binary_round_aux_signed; lia.
Qed.

(** ** What [get_distance] returns *)

(** X1: The distance from a mote to the position of another is the distance the
    other way round: [abs(x - px)] is [abs(px - x)], bit for bit. *)
Theorem distance_symmetric p q :
  get_distance p (pos_x (position q)) (pos_y (position q)) =
  get_distance q (pos_x (position p)) (pos_y (position p)).
Proof.
  unfold get_distance.
  rewrite (abs_sub_comm (pos_x (position q))), (abs_sub_comm (pos_y (position q))).
  reflexivity.
Qed.

(** A distance that is returned is a NaN or a number with the sign plus. *)
Lemma get_distance_class p x y d :
  get_distance p x y = Ok d ->
  Prim2SF d = S754_nan \/ signed false (Prim2SF d).
Proof.
  intros E; apply get_distance_Ok in E; subst d.
  rewrite sqrt_spec, add_spec.
  destruct (square_class (x - pos_x (position p))) as [Hx | Hx];
    [rewrite Hx; left; reflexivity | ].
  destruct (square_class (y - pos_y (position p))) as [Hy | Hy].
  - rewrite Hy; left.
    destruct (Prim2SF (abs (x - pos_x (position p)) * abs (x - pos_x (position p)))%float);
      reflexivity.
  - right; apply SFsqrt_signed, SFadd_signed; assumption.
Qed.

(** [math.sqrt] is never given a negative number: the only exception of
    [get_distance] is the overflow of a square. *)
Lemma get_distance_raises p x y e :
  get_distance p x y = Raise e -> e = OverflowError.
Proof.
  unfold get_distance, PyFloat.pow2, PyFloat.math_sqrt.
  destruct (PyFloat.isinf _ && _); simpl; [congruence | ].
  destruct (PyFloat.isinf _ && _); simpl; [congruence | ].
  match goal with |- context [PyFloat.isnan (sqrt ?s)] => set (s0 := s) end.
  destruct (PyFloat.isnan (sqrt s0) && negb (PyFloat.isnan s0)) eqn:C; [ | discriminate].
  exfalso; apply andb_true_iff in C; destruct C as (C1 & C2).
  apply negb_true_iff in C2; unfold PyFloat.isnan in C1, C2.
  unfold s0 in C1, C2; rewrite sqrt_spec in C1; rewrite add_spec in C1, C2.
  destruct (square_class (x - pos_x (position p))) as [Hx | Hx];
    [rewrite Hx in C2; discriminate | ].
  destruct (square_class (y - pos_y (position p))) as [Hy | Hy].
  - rewrite Hy in C2.
    destruct (Prim2SF (abs (x - pos_x (position p)) * abs (x - pos_x (position p)))%float);
      discriminate.
  - pose proof (SFsqrt_not_nan prec emax _ (SFadd_signed prec emax _ _ Hx Hy)) as H.
    fold SF64add in H, C1; fold SF64sqrt in H, C1.
    destruct (SF64sqrt _); try discriminate; contradiction.
Qed.

Lemma get_distance_ends p x y : get_distance p x y <> OutOfFuel.
Proof.
  unfold get_distance, PyFloat.pow2, PyFloat.math_sqrt.
  destruct (PyFloat.isinf _ && _); simpl; [discriminate | ].
  destruct (PyFloat.isinf _ && _); simpl; [discriminate | ].
  destruct (PyFloat.isnan _ && _); discriminate.
Qed.

(** X2: Whatever the mote and the position, [get_distance] either raises
    [OverflowError] or returns; it never raises the domain error of
    [math.sqrt].  What it returns is at least 0, or is a NaN, and a NaN
    only when a coordinate of the position or of the mote is not finite. *)
Theorem distance_outcomes p x y :
  get_distance p x y = Raise OverflowError \/
  exists d,
    get_distance p x y = Ok d /\
    ((0 <=? d)%float = true \/
     (PyFloat.isnan d = true /\
      ~ (PyFloat.isfinite x = true /\ PyFloat.isfinite y = true /\ finite_mote p))).
Proof.
  destruct (get_distance p x y) as [d | e | ] eqn:E.
  - right; exists d; split; [reflexivity | ].
    destruct (get_distance_class p x y d E) as [N | S].
    + right; split; [unfold PyFloat.isnan; rewrite N; reflexivity | ].
      intros (Hx & Hy & Hp).
      pose proof (distance_not_nan p x y d Hx Hy Hp E) as N'.
      unfold PyFloat.isnan in N'; rewrite N in N'; discriminate.
    + left; apply signed_leb_zero; exact S.
  - left; rewrite (get_distance_raises p x y e E); reflexivity.
  - exfalso; exact (get_distance_ends p x y E).
Qed.

(** ** A range that is not above 0 *)

Lemma SFltb_not_nan a b : SFltb a b = true -> a <> S754_nan /\ b <> S754_nan.
Proof.
  unfold SFltb; destruct a, b; simpl; intros H; split; discriminate.
Qed.

(** A distance is below a positive range only. *)
Lemma near_needs_positive_range p x y d R :
  get_distance p x y = Ok d -> (d <? R)%float = true -> (0 <? R)%float = true.
Proof.
  intros E L; rewrite ltb_spec in L |- *.
  destruct (SFltb_not_nan _ _ L) as (Nd & NR).
  destruct (get_distance_class p x y d E) as [N | S]; [contradiction | ].
  apply (SFltb_rank _ _ Nd NR) in L.
  change (Prim2SF 0) with (S754_zero false).
  apply SFltb_rank; [discriminate | exact NR | ].
  destruct (Prim2SF d) as [s | s | | s m e]; simpl in S; try contradiction; subst s;
    destruct (rank (Prim2SF R)) as [[r1 r2] r3]; unfold rank, rank_lt in *; lia.
Qed.

Lemma in_range_needs_positive_range motes x y R :
  in_range motes x y R = Ok true -> (0 <? R)%float = true.
Proof.
  intros H; destruct (in_range_witness _ _ _ _ H) as (p & d & _ & Hd & L).
  exact (near_needs_positive_range p x y d R Hd L).
Qed.

Lemma sample_needs_positive_range fuel k sx sy motes g :
  (0 <? tx_range k)%float = false ->
  forall xy, fst (sample fuel k sx sy motes g) <> Ok xy.
Proof.
  intros HR [x y] H.
  destruct (sample fuel k sx sy motes g) as [r g'] eqn:S; simpl in H; subst r.
  apply sample_accepts, try_candidate_in_range, in_range_needs_positive_range in S.
  rewrite S in HR; discriminate.
Qed.

(** X3: With two motes or more and a transmitting range that is 0, negative or
    a NaN, no candidate is ever accepted: whatever the fuel and the draws,
    the placement does not end well, and the first mote stays the only one
    placed. *)
Theorem no_placement_without_range fuel k m0 m1 todo g :
  (0 <? tx_range k)%float = false ->
  outcome (place fuel k (m0 :: m1 :: todo) g) <> Ok tt /\
  placed_by (place fuel k (m0 :: m1 :: todo) g) = [m0].
Proof.
  intros HR; simpl.
  pose proof (sample_needs_positive_range fuel k (pos_x (position m0)) (pos_y (position m0))
                [m0] g HR) as HS.
  destruct (sample fuel k (pos_x (position m0)) (pos_y (position m0)) [m0] g)
    as [[[x y] | e | ] g'].
  - exfalso; apply (HS (x, y)); reflexivity.
  - split; [discriminate | reflexivity].
  - split; [discriminate | reflexivity].
Qed.

Lemma no_placement_without_range_witness :
  outcome (place 10 (set_mode (constraints_of default_args zero_range_sim) true)
                 demo_motes demo_generator) <> Ok tt /\
  placed_by (place 10 (set_mode (constraints_of default_args zero_range_sim) true)
                   demo_motes demo_generator)
  = [ {| mote_id := 1; position := {| pos_x := 0; pos_y := 0 |} |} ].
Proof.
  apply (no_placement_without_range 10
           (set_mode (constraints_of default_args zero_range_sim) true)).
  vm_compute; reflexivity.
Defined.

(** ** The files of a run *)

Lemma same_frame_refl c : same_frame c c.
Proof. repeat split. Qed.

Lemma same_frame_trans c1 c2 c3 :
  same_frame c1 c2 -> same_frame c2 c3 -> same_frame c1 c3.
Proof.
  intros (H1 & H2 & H3) (H4 & H5 & H6); repeat split; congruence.
Qed.

Lemma place_frame fuel k all g :
  outcome (place fuel k all g) = Ok tt ->
  map mote_id (placed_by (place fuel k all g)) = map mote_id all /\
  anchor (placed_by (place fuel k all g)) = anchor all.
Proof.
  intros H; split; [ | apply place_head].
  destruct all as [ | m todo]; [reflexivity | ]; simpl in H |- *.
  destruct (place_rest_shape fuel k (pos_x (position m)) (pos_y (position m)) todo [m] g)
    as (rest & left & E & Hid & Hleft).
  rewrite E, (Hleft H), app_nil_r in *; simpl; rewrite Hid; reflexivity.
Qed.

Lemma reseed_frame args i c g :
  same_frame c (fst (reseed args i c g)) /\
  (seed_policy args = Policy_g -> random_seed (fst (reseed args i c g)) = random_seed c).
Proof.
  unfold reseed; destruct (seed_policy args); simpl; repeat split; discriminate.
Qed.

(** Where a file of the batch comes from: it was saved before the batch, or
    it is the file of a pair of ratios for a topology whose placement ended
    well, on a simulation that has the frame of the one the batch started
    with. *)
Lemma batch_provenance fuel args k n :
  forall i c g saved a,
    In a (snd (batch fuel args k n i c g saved)) ->
    In a saved \/
    exists j c1 g1 p,
      same_frame c c1 /\
      (seed_policy args = Policy_g -> random_seed c1 = random_seed c) /\
      outcome (place fuel k (get_motes c1) g1) = Ok tt /\
      In p (product (tx_ratio args) (rx_ratio args)) /\
      a = snapshot args j (set_motes c1 (placed_by (place fuel k (get_motes c1) g1))) p.
Proof.
  induction n as [ | n IH]; intros i c g saved a; simpl; [tauto | ].
  destruct (reseed_frame args i c g) as (HF & HS).
  destruct (reseed args i c g) as [c1 g1]; simpl in HF, HS.
  destruct (place fuel k (get_motes c1) g1) as [[r motes] g2] eqn:P.
  destruct r as [[] | e | ]; simpl; try tauto.
  pose proof (sweep_saved args i (product (tx_ratio args) (rx_ratio args))
                (set_motes c1 motes) saved) as HSw.
  pose proof (sweep_sim args i (product (tx_ratio args) (rx_ratio args))
                (set_motes c1 motes) saved) as (HM & HSd & HK).
  destruct (sweep args i _ (set_motes c1 motes) saved) as [c2 saved'].
  simpl in HSw, HM, HSd, HK.
  assert (HP : outcome (place fuel k (get_motes c1) g1) = Ok tt) by (rewrite P; reflexivity).
  assert (HPm : placed_by (place fuel k (get_motes c1) g1) = motes) by (rewrite P; reflexivity).
  intros H; apply IH in H; destruct H as [H | (j & c3 & g3 & p & HF3 & HS3 & HP3 & Hp & ->)].
  - rewrite HSw in H; apply in_app_or in H; destruct H as [H | H]; [left; exact H | right].
    apply in_map_iff in H; destruct H as (p & <- & Hp).
    exists i, c1, g1, p; rewrite HPm.
    exact (conj HF (conj HS (conj HP (conj Hp eq_refl)))).
  - right; exists j, c3, g3, p.
    refine (conj _ (conj _ (conj HP3 (conj Hp eq_refl)))).
    + apply same_frame_trans with (2 := HF3), same_frame_trans with (1 := HF).
      destruct (place_frame fuel k (get_motes c1) g1 HP) as (Hid & Ha).
      rewrite HPm in Hid, Ha; unfold same_frame; simpl.
      rewrite HM, HK; simpl; auto.
    + intros Hg; rewrite (HS3 Hg), HSd; simpl; exact (HS Hg).
Qed.

(** The same for [main]: the arguments are those with the ratios rounded,
    the constraints those [configure] computes. *)
Lemma main_provenance fuel args c g a :
  In a (snd (main fuel args c g)) ->
  exists args' j c1 g1 p,
    args' = set_ratio_lists args (map PyFormat.round2 (tx_ratio args))
                                 (map PyFormat.round2 (rx_ratio args)) /\
    out_of_range (tx_ratio args) = Ok false /\
    out_of_range (rx_ratio args) = Ok false /\
    same_frame c c1 /\
    (seed_policy args = Policy_g -> random_seed c1 = Generated) /\
    outcome (place fuel (constraints_of args c) (get_motes c1) g1) = Ok tt /\
    In p (product (tx_ratio args') (rx_ratio args')) /\
    a = snapshot args' j
          (set_motes c1 (placed_by (place fuel (constraints_of args c) (get_motes c1) g1))) p.
Proof.
  unfold main; destruct (configure args c) as [[[args' c'] k] | e | ] eqn:E;
    simpl; try tauto.
  apply configure_Ok in E; destruct E as (Htx & Hrx & _ & Ha & Hc & Hk).
  intros H; apply batch_provenance in H.
  destruct H as [[] | (j & c1 & g1 & p & HF & HS & HP & Hp & ->)].
  subst k; exists args', j, c1, g1, p.
  refine (conj Ha (conj Htx (conj Hrx (conj _ (conj _ (conj HP (conj Hp eq_refl))))))).
  - apply same_frame_trans with (2 := HF).
    subst c'; destruct (seed_policy args); unfold same_frame; simpl; auto.
  - intros Hg; rewrite HS by (subst args'; exact Hg).
    subst c'; rewrite Hg; reflexivity.
Qed.

(** X4: Every file of a run holds the motes of the loaded simulation, by id and
    in order, with the first mote where it was, and a radio medium of the
    same class and range: a run changes the positions of the other motes,
    the two success ratios and the seed, and nothing else. *)
Theorem saved_files_keep_the_frame fuel args c g a :
  In a (snd (main fuel args c g)) ->
  map mote_id (get_motes (content a)) = map mote_id (get_motes c) /\
  anchor (get_motes (content a)) = anchor (get_motes c) /\
  kind (radio_medium (content a)) = kind (radio_medium c).
Proof.
  intros H; apply main_provenance in H.
  destruct H as (args' & j & c1 & g1 & p & _ & _ & _ & (Hid & Ha & Hk) & _ & HP & _ & ->).
  destruct (place_frame _ _ _ _ HP) as (Hid' & Ha'); simpl.
  split; [congruence | split; [congruence | exact Hk]].
Qed.

(** X7: Under the policy [g] every file of a run leaves the seed to the
    simulator. *)
Theorem generated_seed_in_saved_files fuel args c g a :
  seed_policy args = Policy_g ->
  In a (snd (main fuel args c g)) ->
  random_seed (content a) = Generated.
Proof.
  intros Hg H; apply main_provenance in H.
  destruct H as (args' & j & c1 & g1 & p & _ & _ & _ & _ & HS & _ & _ & ->).
  simpl; exact (HS Hg).
Qed.

(** ** The topologies that are saved *)





(** ** How a run can end *)

Lemma in_range_raises motes x y R e :
  in_range motes x y R = Raise e -> e = OverflowError.
Proof.
  induction motes as [ | p motes IH]; simpl; [discriminate | ].
  destruct (get_distance p x y) as [d | e' | ] eqn:E; simpl.
  - destruct (d <? R)%float; [discriminate | exact IH].
  - intros H; injection H as <-; exact (get_distance_raises _ _ _ _ E).
  - discriminate.
Qed.

Lemma far_enough_raises motes x y D e :
  far_enough motes x y D = Raise e -> e = OverflowError.
Proof.
  induction motes as [ | p motes IH]; simpl; [discriminate | ].
  destruct (get_distance p x y) as [d | e' | ] eqn:E; simpl.
  - destruct (PyFloat.lt_int d D); [discriminate | exact IH].
  - intros H; injection H as <-; exact (get_distance_raises _ _ _ _ E).
  - discriminate.
Qed.

Lemma try_candidate_raises k motes x y e :
  try_candidate k motes x y = Raise e -> e = OverflowError.
Proof.
  unfold try_candidate.
  destruct (in_range motes x y (tx_range k)) as [done | e' | ] eqn:E; simpl.
  - destruct (done && (0 <? min_dist k)); [apply far_enough_raises | discriminate].
  - intros H; injection H as <-; exact (in_range_raises _ _ _ _ _ E).
  - discriminate.
Qed.

Lemma sample_raises fuel k sx sy motes :
  forall g e, fst (sample fuel k sx sy motes g) = Raise e -> e = OverflowError.
Proof.
  induction fuel as [ | fuel IH]; intros g e; simpl; [discriminate | ].
  destruct (draw_candidate k sx sy g) as [[x y] g1].
  destruct (try_candidate k motes x y) as [[ | ] | e' | ] eqn:T; simpl;
    try discriminate.
  - apply IH.
  - intros H; injection H as <-; exact (try_candidate_raises _ _ _ _ _ T).
Qed.

Lemma place_rest_raises fuel k sx sy todo :
  forall motes g e,
    outcome (place_rest fuel k sx sy motes todo g) = Raise e -> e = OverflowError.
Proof.
  induction todo as [ | m todo IH]; intros motes g e; simpl; [discriminate | ].
  pose proof (sample_raises fuel k sx sy motes g) as HS.
  destruct (sample fuel k sx sy motes g) as [[[x y] | e' | ] g1]; simpl in HS |- *.
  - apply IH.
  - intros H; injection H as <-; apply HS; reflexivity.
  - discriminate.
Qed.

Lemma batch_raises fuel args k n :
  forall i c g saved e,
    fst (batch fuel args k n i c g saved) = Raise e -> e = OverflowError.
Proof.
  induction n as [ | n IH]; intros i c g saved e; simpl; [discriminate | ].
  destruct (reseed args i c g) as [c1 g1].
  destruct (place fuel k (get_motes c1) g1) as [[r motes] g2] eqn:P.
  destruct r as [[] | e' | ]; simpl.
  - destruct (sweep args i _ (set_motes c1 motes) saved) as [c2 saved']; apply IH.
  - intros H; injection H as <-.
    assert (HP : outcome (place fuel k (get_motes c1) g1) = Raise e') by (rewrite P; reflexivity).
    destruct (get_motes c1) as [ | m todo]; [discriminate HP | ].
    exact (place_rest_raises _ _ _ _ _ _ _ _ HP).
  - discriminate.
Qed.



Lemma saved_files_keep_the_frame_witness :
  map mote_id (get_motes (content demo_third_file)) = map mote_id (get_motes demo_sim) /\
  anchor (get_motes (content demo_third_file)) = anchor (get_motes demo_sim) /\
  kind (radio_medium (content demo_third_file)) = kind (radio_medium demo_sim).
Proof.
  apply (saved_files_keep_the_frame 10 demo_args demo_sim demo_generator demo_third_file).
  vm_compute; right; right; left; reflexivity.
Defined.

Lemma generated_seed_in_saved_files_witness :
  random_seed (content twice_first_file) = Generated.
Proof.
  apply (generated_seed_in_saved_files 10 twice_args demo_sim demo_generator twice_first_file).
  - reflexivity.
  - vm_compute; left; reflexivity.
Defined.



(** ** The check of the ratios on lists without a NaN *)

Lemma configure_checks_tx args c :
  out_of_range (tx_ratio args) = Ok true ->
  configure args c = Raise (SystemExit "Invalid Tx ratio").
Proof. unfold configure; intros ->; reflexivity. Qed.

Lemma configure_checks_rx args c :
  out_of_range (tx_ratio args) = Ok false ->
  out_of_range (rx_ratio args) = Ok true ->
  configure args c = Raise (SystemExit "Invalid Rx ratio").
Proof. unfold configure; intros -> ->; reflexivity. Qed.

(** X9: When no ratio of the command line is a NaN, the check does what its
    message says: [main] exits with "Invalid Tx ratio" exactly when a tx
    ratio is outside [0.0, 1.0], and with "Invalid Rx ratio" exactly when
    the tx ratios are all inside and an rx ratio is outside; in both cases
    no file is saved. *)
Theorem ratio_check_without_nan fuel args c g :
  tx_ratio args <> [] -> rx_ratio args <> [] ->
  no_nan (tx_ratio args) -> no_nan (rx_ratio args) ->
  (main fuel args c g = (Raise (SystemExit "Invalid Tx ratio"), []) <->
   forallb is_ratio (tx_ratio args) = false) /\
  (main fuel args c g = (Raise (SystemExit "Invalid Rx ratio"), []) <->
   forallb is_ratio (tx_ratio args) = true /\ forallb is_ratio (rx_ratio args) = false).
Proof.
  intros Htx Hrx Ntx Nrx.
  pose proof (out_of_range_no_nan _ Htx Ntx) as Ctx.
  pose proof (out_of_range_no_nan _ Hrx Nrx) as Crx.
  assert (Hexit : forall msg,
             fst (main fuel args c g) = Raise (SystemExit msg) ->
             configure args c = Raise (SystemExit msg)).
  { unfold main; intros msg.
    destruct (configure args c) as [[[args' c'] k] | e | ]; simpl.
    - intros H; apply batch_raises in H; discriminate.
    - congruence.
    - discriminate. }
  destruct (forallb is_ratio (tx_ratio args)); simpl in Ctx.
  - destruct (forallb is_ratio (rx_ratio args)); simpl in Crx.
    + split; split; intros H; try (destruct H; discriminate); try discriminate;
        apply (f_equal fst) in H; apply Hexit in H;
        unfold configure in H; rewrite Ctx, Crx in H; simpl in H;
        destruct ((0 <? min_distance args) && _); discriminate.
    + pose proof (configure_checks_rx args c Ctx Crx) as E.
      split; split; intros H; try discriminate; auto;
        unfold main in *; rewrite E in *; try reflexivity; discriminate.
  - pose proof (configure_checks_tx args c Ctx) as E.
    split; split; intros H; try (destruct H; discriminate); auto;
      unfold main in *; rewrite E in *; try reflexivity; discriminate.
Qed.

Lemma ratio_check_without_nan_witness :
  (main 10 (set_ratio_lists demo_args [0.5%float; 2%float] [1%float]) demo_sim demo_generator
     = (Raise (SystemExit "Invalid Tx ratio"), []) <->
   forallb is_ratio [0.5%float; 2%float] = false) /\
  (main 10 (set_ratio_lists demo_args [0.5%float; 2%float] [1%float]) demo_sim demo_generator
     = (Raise (SystemExit "Invalid Rx ratio"), []) <->
   forallb is_ratio [0.5%float; 2%float] = true /\ forallb is_ratio [1%float] = false).
Proof.
  apply (ratio_check_without_nan 10 (set_ratio_lists demo_args [0.5%float; 2%float] [1%float])
           demo_sim demo_generator).
  - simpl; discriminate.
  - simpl; discriminate.
  - repeat constructor.
  - repeat constructor.
Defined.

(** X10: When no ratio of the command line is a NaN, every file of a run is
    saved with a tx ratio and an rx ratio in [0.0, 1.0]: the ratios passed
    the check, and rounding to two decimals keeps them in the interval. *)
Theorem saved_ratios_are_ratios fuel args c g a :
  no_nan (tx_ratio args) -> no_nan (rx_ratio args) ->
  In a (snd (main fuel args c g)) ->
  is_ratio (applied_tx a) = true /\ is_ratio (applied_rx a) = true.
Proof.
  intros Ntx Nrx H; apply main_provenance in H.
  destruct H as (args' & j & c1 & g1 & [t r] & -> & Htx & Hrx & _ & _ & _ & Hp & ->).
  simpl in Hp; apply in_product in Hp; destruct Hp as (Ht & Hr).
  apply in_map_iff in Ht, Hr; destruct Ht as (t0 & <- & Ht), Hr as (r0 & <- & Hr).
  assert (Hall : forall l, no_nan l -> out_of_range l = Ok false ->
                           forall v, In v l -> is_ratio v = true).
  { intros l Nl Hl v Hv.
    assert (Hne : l <> []) by (destruct l; [destruct Hv | discriminate]).
    rewrite (out_of_range_no_nan l Hne Nl) in Hl; injection Hl as Hl.
    apply negb_false_iff in Hl; rewrite forallb_forall in Hl; auto. }
  unfold applied_tx, applied_rx; simpl; split; apply round2_keeps_ratios.
  - exact (Hall _ Ntx Htx t0 Ht).
  - exact (Hall _ Nrx Hrx r0 Hr).
Qed.

Lemma saved_ratios_are_ratios_witness :
  is_ratio (applied_tx demo_third_file) = true /\ is_ratio (applied_rx demo_third_file) = true.
Proof.
  apply (saved_ratios_are_ratios 10 demo_args demo_sim demo_generator demo_third_file).
  - repeat constructor.
  - repeat constructor.
  - vm_compute; right; right; left; reflexivity.
Defined.

(** ** How many files, and which *)



(** File number [idx] among the files the batch adds is the file of
    topology [idx / |pairs|] (counted from the first topology of the batch)
    and of pair number [idx mod |pairs|] of the cross product. *)
Lemma batch_nth fuel args k n :
  forall i c g saved idx a,
    (List.length saved <= idx)%nat ->
    nth_error (snd (batch fuel args k n i c g saved)) idx = Some a ->
    exists c' p,
      nth_error (product (tx_ratio args) (rx_ratio args))
                ((idx - List.length saved)
                 mod (List.length (tx_ratio args) * List.length (rx_ratio args))) = Some p /\
      a = snapshot args
            (i + Z.of_nat ((idx - List.length saved)
                           / (List.length (tx_ratio args) * List.length (rx_ratio args))))
            c' p.
Proof.
  induction n as [ | n IH]; intros i c g saved idx a Hidx; simpl.
  - intros H; assert (H0 : nth_error saved idx <> None) by congruence.
    apply nth_error_Some in H0; lia.
  - destruct (reseed args i c g) as [c1 g1].
    destruct (place fuel k (get_motes c1) g1) as [[[[] | e | ] motes] g2];
      try (simpl; intros H; assert (H0 : nth_error saved idx <> None) by congruence;
           apply nth_error_Some in H0; lia).
    pose proof (sweep_saved args i (product (tx_ratio args) (rx_ratio args))
                  (set_motes c1 motes) saved) as HS.
    destruct (sweep args i _ (set_motes c1 motes) saved) as [c2 saved'].
    simpl in HS; intros H.
    set (np := (List.length (tx_ratio args) * List.length (rx_ratio args))%nat) in *.
    assert (Hlen : List.length saved' = (List.length saved + np)%nat).
    { rewrite HS, length_app, length_map, length_product; reflexivity. }
    destruct (Nat.lt_ge_cases idx (List.length saved')) as [Hlt | Hge].
    + destruct (batch_extends fuel args k n (i + 1) c2 g2 saved') as (new & Hnew).
      rewrite Hnew, nth_error_app1, HS, nth_error_app2, nth_error_map in H
        by (try exact Hlt; exact Hidx).
      destruct (nth_error _ (idx - List.length saved)) as [p | ] eqn:Hp; [ | discriminate].
      injection H as <-; exists (set_motes c1 motes), p.
      rewrite Nat.mod_small, Nat.div_small by lia; split; [exact Hp | ].
      f_equal; lia.
    + destruct (Nat.eq_dec np 0) as [Hz | Hnz].
      * unfold np in Hz; rewrite <- length_product in Hz.
        apply length_zero_iff_nil in Hz.
        rewrite (batch_no_pairs _ _ _ _ Hz) in H.
        assert (H0 : nth_error saved' idx <> None) by congruence.
        apply nth_error_Some in H0; lia.
      * destruct (IH _ _ _ _ _ _ Hge H) as (c' & p & Hp & ->).
        exists c', p; rewrite Hlen in Hp |- *.
        replace (idx - (List.length saved + np))%nat
          with (idx - List.length saved - np)%nat in * by lia.
        assert (Hm : ((idx - List.length saved) mod np
                      = (idx - List.length saved - np) mod np)%nat).
        { replace (idx - List.length saved)%nat
            with ((idx - List.length saved - np) + 1 * np)%nat at 1 by lia.
          apply Nat.Div0.mod_add. }
        rewrite Hm, (div_sub_step np (idx - List.length saved)) by lia.
        split; [exact Hp | f_equal; lia].
Qed.

(** X12: File number [idx] of a run, counted from 0, is the file of topology
    [idx / (|tx| * |rx|)] and of pair number [idx mod (|tx| * |rx|)] of the
    cross product of the rounded ratios: it has the name [output_file] gives
    for them and was saved with that pair of ratios. *)
Theorem file_of_index fuel args c g idx a :
  nth_error (snd (main fuel args c g)) idx = Some a ->
  let args' := set_ratio_lists args (map PyFormat.round2 (tx_ratio args))
                                    (map PyFormat.round2 (rx_ratio args)) in
  let np := (List.length (tx_ratio args) * List.length (rx_ratio args))%nat in
  exists t_rat r_rat,
    nth_error (product (tx_ratio args') (rx_ratio args')) (idx mod np) = Some (t_rat, r_rat) /\
    file_name a = output_file args' (Z.of_nat (idx / np)) t_rat r_rat /\
    applied_tx a = t_rat /\ applied_rx a = r_rat.
Proof.
  unfold main; destruct (configure args c) as [[[args' c'] k] | e | ] eqn:E; simpl;
    try (destruct idx; discriminate).
  apply configure_Ok in E; destruct E as (_ & _ & _ & -> & _ & _).
  intros H; apply batch_nth in H; [ | simpl; lia].
  destruct H as (c1 & [t r] & Hp & ->); simpl in Hp.
  rewrite !length_map, Nat.sub_0_r in Hp.
  exists t, r; simpl; rewrite !length_map, Nat.sub_0_r; auto.
Qed.

Lemma file_of_index_witness :
  exists t_rat r_rat,
    nth_error (product [0.5%float; PyFormat.round2 0.875] [1%float]) (2 mod 2) = Some (t_rat, r_rat) /\
    file_name demo_third_file
      = output_file (set_ratio_lists demo_args [0.5%float; PyFormat.round2 0.875] [1%float])
                    (Z.of_nat (2 / 2)) t_rat r_rat /\
    applied_tx demo_third_file = t_rat /\ applied_rx demo_third_file = r_rat.
Proof.
  apply (file_of_index 10 demo_args demo_sim demo_generator 2 demo_third_file).
  vm_compute; reflexivity.
Defined.

(** ** A simulation with one mote *)




(** ** An output path that ends in [.csc] *)







(** * The data trace and the log of a simulation *)

(** ** Strings *)

Lemma text_eqb_eq s t : PyStr.text_eqb s t = true <-> s = t.
Proof.
  unfold PyStr.text_eqb; destruct (list_eq_dec ascii_dec s t); split;
    intros H; try reflexivity; try assumption; [discriminate | contradiction].
Qed.

Lemma text_eqb_refl s : PyStr.text_eqb s s = true.
Proof. apply text_eqb_eq; reflexivity. Qed.

Lemma endswith_app s suffix : PyStr.endswith (s ++ suffix) suffix = true.
Proof.
  unfold PyStr.endswith; rewrite length_app.
  replace (List.length suffix <=? List.length s + List.length suffix)%nat with true
    by (symmetry; apply Nat.leb_le; lia).
  replace (List.length s + List.length suffix - List.length suffix)%nat
    with (List.length s) by lia.
  rewrite skipn_app, Nat.sub_diag, skipn_all; apply text_eqb_refl.
Qed.

Lemma endswith_inv s suffix :
  PyStr.endswith s suffix = true -> exists r, s = r ++ suffix.
Proof.
  unfold PyStr.endswith; intros H; apply andb_true_iff in H; destruct H as (_ & H).
  apply text_eqb_eq in H.
  remember (List.length s - List.length suffix)%nat as n.
  exists (firstn n s); rewrite <- H; symmetry; apply firstn_skipn.
Qed.

Lemma drop_last_app s suffix :
  PyStr.drop_last (List.length suffix) (s ++ suffix) = s.
Proof.
  unfold PyStr.drop_last; rewrite length_app.
  replace (List.length s + List.length suffix - List.length suffix)%nat
    with (List.length s) by lia.
  rewrite firstn_app, Nat.sub_diag, firstn_all; simpl; apply app_nil_r.
Qed.

(** ** Where the data trace goes *)

(** X15: The directory of the data trace is named after the simulation file
    without its [.csc] or [.csc.gz]: for a file [name.csc] or [name.csc.gz]
    and no output path it is [name-dt-<id>]. *)
Theorem data_trace_drops_the_extension name simulation_id :
  RunCooja.target_basename (name ++ lit ".csc") None simulation_id
    = name ++ lit "-dt-" ++ simulation_id /\
  RunCooja.target_basename (name ++ lit ".csc.gz") None simulation_id
    = name ++ lit "-dt-" ++ simulation_id.
Proof.
  unfold RunCooja.target_basename; split.
  - assert (H : PyStr.endswith (name ++ lit ".csc") (lit ".csc.gz") = false).
    { destruct (PyStr.endswith (name ++ lit ".csc") (lit ".csc.gz")) eqn:E; [ | reflexivity].
      apply endswith_inv in E; destruct E as (r & E).
      apply (f_equal (@rev ascii)) in E; rewrite !rev_app_distr in E; discriminate E. }
    pose proof (drop_last_app name (lit ".csc")) as D.
    change (List.length (lit ".csc")) with 4%nat in D.
    rewrite H, endswith_app, D; reflexivity.
  - pose proof (drop_last_app name (lit ".csc.gz")) as D.
    change (List.length (lit ".csc.gz")) with 7%nat in D.
    rewrite endswith_app, D; reflexivity.
Qed.

Lemma join_absolute a rest : PyStr.join a ("/"%char :: rest) = "/"%char :: rest.
Proof. reflexivity. Qed.

(** X16: For a simulation file given by an absolute path, as [main] gives it
    (it passes [os.path.abspath(file)]), the output path does not change
    where the data trace goes: [os.path.join] drops what comes before an
    absolute path. *)
Theorem output_path_is_dropped_for_absolute_files rest output_path simulation_id :
  RunCooja.target_basename ("/"%char :: rest) (Some output_path) simulation_id
  = RunCooja.target_basename ("/"%char :: rest) None simulation_id.
Proof.
  unfold RunCooja.target_basename.
  assert (Hdrop : forall suffix,
             suffix <> [] -> hd_error suffix <> Some "/"%char ->
             PyStr.endswith ("/"%char :: rest) suffix = true ->
             exists r, PyStr.drop_last (List.length suffix) ("/"%char :: rest) = "/"%char :: r).
  { intros suffix Hne Hhd E; apply endswith_inv in E; destruct E as (r & E).
    exists (tl r); rewrite E, drop_last_app.
    destruct r as [ | x r]; [destruct suffix; simpl in *; congruence | ].
    simpl in E; injection E as <- _; reflexivity. }
  destruct (PyStr.endswith ("/"%char :: rest) (lit ".csc.gz")) eqn:E1.
  - destruct (Hdrop (lit ".csc.gz") ltac:(discriminate) ltac:(discriminate) E1) as (r & Hr).
    change (List.length (lit ".csc.gz")) with 7%nat in Hr; rewrite Hr; reflexivity.
  - destruct (PyStr.endswith ("/"%char :: rest) (lit ".csc")) eqn:E2.
    + destruct (Hdrop (lit ".csc") ltac:(discriminate) ltac:(discriminate) E2) as (r & Hr).
      change (List.length (lit ".csc")) with 4%nat in Hr; rewrite Hr; reflexivity.
    + reflexivity.
Qed.

(** ** Reading the log *)

Lemma lstrip_head s a r : PyStr.lstrip s = a :: r -> PyStr.isspace a = false.
Proof.
  induction s as [ | x s IH]; simpl; [discriminate | ].
  destruct (PyStr.isspace x) eqn:E; [exact IH | ].
  intros H; injection H as <- _; exact E.
Qed.

Lemma split_not_nil sep s : PyStr.split sep s <> [].
Proof.
  destruct s as [ | a s]; simpl; [discriminate | ].
  destruct (Ascii.eqb a sep); [discriminate | ].
  destruct (PyStr.split sep s); discriminate.
Qed.

Lemma split_one sep s a : PyStr.split sep s = [a] <-> s = a /\ ~ In sep a.
Proof.
  revert a; induction s as [ | x s IH]; intros a; simpl.
  - split; [intros H; injection H as <-; auto | intros (<- & _); reflexivity].
  - destruct (Ascii.eqb x sep) eqn:E.
    + apply Ascii.eqb_eq in E; subst x; split.
      * intros H; injection H as _ H; destruct (split_not_nil sep s H).
      * intros (<- & H); exfalso; apply H; left; reflexivity.
    + apply Ascii.eqb_neq in E.
      destruct (PyStr.split sep s) as [ | p ps] eqn:S; [destruct (split_not_nil sep s S) | ].
      split.
      * intros H; injection H as <- ->.
        destruct (proj1 (IH p) eq_refl) as (-> & Hp).
        split; [reflexivity | intros [H | H]; [congruence | contradiction]].
      * intros (<- & H).
        assert (Hp : p :: ps = [s]).
        { apply IH; split; [reflexivity | intros Hin; apply H; right; exact Hin]. }
        injection Hp as -> ->; reflexivity.
Qed.

Lemma split_two sep s a b :
  PyStr.split sep s = [a; b] <-> s = a ++ sep :: b /\ ~ In sep a /\ ~ In sep b.
Proof.
  revert a; induction s as [ | x s IH]; intros a; simpl.
  - split; [discriminate | intros (H & _); destruct a; discriminate].
  - destruct (Ascii.eqb x sep) eqn:E.
    + apply Ascii.eqb_eq in E; subst x; split.
      * intros H; injection H as <- H; apply split_one in H; destruct H as (-> & Hb).
        split; [reflexivity | split; [intros [] | exact Hb]].
      * intros (H & Ha & Hb); destruct a as [ | y a].
        -- simpl in H; injection H as ->.
           replace (PyStr.split sep b) with [b]; [reflexivity | ].
           symmetry; apply split_one; auto.
        -- simpl in H; injection H as <- _; exfalso; apply Ha; left; reflexivity.
    + apply Ascii.eqb_neq in E.
      destruct (PyStr.split sep s) as [ | p ps] eqn:S; [destruct (split_not_nil sep s S) | ].
      split.
      * intros H; injection H as <- ->.
        destruct (proj1 (IH p) eq_refl) as (-> & Hp & Hb).
        split; [reflexivity | split; [ | exact Hb]].
        intros [H | H]; [congruence | contradiction].
      * intros (H & Ha & Hb); destruct a as [ | y a].
        -- simpl in H; injection H as H _; congruence.
        -- simpl in H; injection H as <- ->.
           assert (Hp : p :: ps = [a; b]).
           { apply IH; split; [reflexivity | split; [ | exact Hb]].
             intros Hin; apply Ha; right; exact Hin. }
           injection Hp as -> ->; reflexivity.
Qed.

Lemma scan_existsb lines : forall is_done,
  RunCooja.scan lines is_done = is_done || existsb RunCooja.line_is_test_ok lines.
Proof.
  induction lines as [ | line lines IH]; intros is_done; simpl.
  - symmetry; apply orb_false_r.
  - rewrite IH; destruct (RunCooja.line_is_test_ok line), is_done; reflexivity.
Qed.

(** A line of the log reports the test as passed exactly when, without the
    white space at its two ends, it is a first field that is not empty and
    has no tab, a tab, and [TEST OK]. *)
Lemma line_is_test_ok_iff line :
  RunCooja.line_is_test_ok line = true <->
  exists field,
    field <> [] /\ ~ In "009"%char field /\
    PyStr.strip line = field ++ "009"%char :: lit "TEST OK".
Proof.
  unfold RunCooja.line_is_test_ok; split.
  - intros H; apply andb_true_iff in H; destruct H as (Hlen & Hok).
    apply Nat.eqb_eq in Hlen; apply text_eqb_eq in Hok.
    destruct (PyStr.split "009"%char (PyStr.strip line)) as [ | a [ | b [ | ? ?]]] eqn:S;
      try discriminate.
    simpl in Hok; subst b; apply split_two in S; destruct S as (S & Ha & _).
    exists a; split; [ | split; assumption].
    intros ->; simpl in S; unfold PyStr.strip in S.
    apply lstrip_head in S; discriminate S.
  - intros (field & _ & Hf & H).
    assert (S : PyStr.split "009"%char (PyStr.strip line) = [field; lit "TEST OK"]).
    { apply split_two; split; [exact H | split; [exact Hf | ]].
      simpl; intros Hin.
      repeat (destruct Hin as [Hin | Hin]; [discriminate Hin | ]); exact Hin. }
    rewrite S; reflexivity.
Qed.

(** X17: [run_simulation] returns [True] exactly when Cooja returned 0, the log
    of the script exists, and some line of it reports the test as passed:
    a first field that is not empty and has no tab, a tab, and [TEST OK],
    with any white space around.  Lines before or after do not matter. *)
Theorem run_simulation_succeeds_iff return_code has_script_output lines :
  RunCooja.run_simulation return_code has_script_output lines = true <->
  return_code = 0 /\ has_script_output = true /\
  exists line field,
    In line lines /\ field <> [] /\ ~ In "009"%char field /\
    PyStr.strip line = field ++ "009"%char :: lit "TEST OK".
Proof.
  unfold RunCooja.run_simulation; rewrite scan_existsb; simpl orb.
  destruct (Z.eqb_spec return_code 0) as [-> | Hrc]; simpl.
  - destruct has_script_output; simpl.
    + destruct (existsb RunCooja.line_is_test_ok lines) eqn:E; simpl.
      * apply existsb_exists in E; destruct E as (line & Hin & Hok).
        apply line_is_test_ok_iff in Hok; destruct Hok as (field & H).
        split; [intros _ | reflexivity].
        split; [reflexivity | split; [reflexivity | exists line, field; tauto]].
      * split; [discriminate | intros (_ & _ & line & field & Hin & H)].
        assert (Hok : RunCooja.line_is_test_ok line = true)
          by (apply line_is_test_ok_iff; exists field; exact H).
        assert (E' : existsb RunCooja.line_is_test_ok lines = true)
          by (apply existsb_exists; exists line; auto).
        congruence.
    + split; [discriminate | intros (_ & H & _); discriminate H].
  - split; [discriminate | intros (H & _); contradiction].
Qed.

Example demo_log_passes :
  RunCooja.run_simulation 0 true demo_log = true /\
  RunCooja.run_simulation 0 true [ "009"%char :: lit "TEST OK" ++ ["010"%char] ] = false /\
  RunCooja.run_simulation 1 true demo_log = false.
Proof. repeat split; vm_compute; reflexivity. Qed.
